(** * A shallow embedding of [real_time_denoiser.py]

    The script reads interleaved 8-bit I/Q samples from an [rtl_sdr] child
    process, denoises each channel with a smoothed-L1 proximal problem solved
    by a capped quasi-Newton iteration, and forwards the result over TCP while
    an operator thread may post frequency changes.

    Floating point is modelled with the bit-exact IEEE-754 operations of
    [SpecFloat]: binary32 for the framed samples ([np.float32]) and binary64
    for everything the optimiser and the frequency parser compute. *)

From Stdlib Require Import String Ascii.
From Stdlib Require Import ZArith List Bool Lia QArith Qabs.
From Stdlib Require Import SpecFloat.
From Stdlib.Strings Require Byte.
Import ListNotations.

Local Open Scope Z_scope.

(** ** IEEE-754 formats *)

Module F32.
Definition prec : Z := 24.
Definition emax : Z := 128.
Definition of_Z (z : Z) : spec_float := binary_normalize prec emax z 0 false.
Definition make (m e : Z) : spec_float := binary_normalize prec emax m e false.
Definition add := SFadd prec emax.
Definition sub := SFsub prec emax.
Definition mul := SFmul prec emax.
Definition div := SFdiv prec emax.
End F32.

Module F64.
Definition prec : Z := 53.
Definition emax : Z := 1024.
Definition of_Z (z : Z) : spec_float := binary_normalize prec emax z 0 false.
Definition make (m e : Z) : spec_float := binary_normalize prec emax m e false.
Definition add := SFadd prec emax.
Definition sub := SFsub prec emax.
Definition mul := SFmul prec emax.
Definition div := SFdiv prec emax.
Definition sqrt := SFsqrt prec emax.
Definition zero : spec_float := S754_zero false.
End F64.

(** Exact rational value of a finite float (0 for the others). *)
Definition SF2Q (x : spec_float) : Q :=
  match x with
  | S754_finite s m e =>
      let n := cond_Zopp s (Zpos m) in
      if 0 <=? e then inject_Z (n * 2 ^ e)
      else Qmake n (Z.to_pos (2 ^ (- e)))
  | _ => 0%Q
  end.

(** ** CONFIG *)

Definition SAMPLE_RATE : Z := 250000.
Definition CHUNK_SIZE : nat := 4096.
(** The decimal literal of the script rounds to [0x1.21fb54442d184p-3]. *)
Definition LAMBDA_L1 : spec_float := S754_finite false 5101412975563140 (-55).
(** [1e-3] is [0x1.0624dd2f1a9fcp-10]. *)
Definition EPSILON : spec_float := S754_finite false 4611686018427388 (-62).
Definition DEFAULT_FREQ : Z := 102000000.
Definition PORT : Z := 9000.

(** ** Sample framing (lines 102-105 of [iq_processing_loop]) *)

Definition byte := Byte.byte.
Definition byte_val (b : byte) : Z := Z.of_N (Byte.to_N b).

(** [np.frombuffer(raw, dtype=np.uint8).astype(np.float32)] *)
Definition frombuffer_float32 (raw : list byte) : list spec_float :=
  map (fun b => F32.of_Z (byte_val b)) raw.

(** 127.5 as a binary32 value (255 * 2^-1, exact). *)
Definition c127_5 : spec_float := F32.make 255 (-1).

(** [(iq - 127.5) / 127.5], element by element, in binary32. *)
Definition center_scale (v : spec_float) : spec_float :=
  F32.div (F32.sub v c127_5) c127_5.

Definition normalize_byte (b : byte) : spec_float :=
  center_scale (F32.of_Z (byte_val b)).

(** [a[::2]]: every other element, starting with the first. *)
Fixpoint stride2 {A : Type} (l : list A) : list A :=
  match l with
  | [] => []
  | [x] => [x]
  | x :: _ :: t => x :: stride2 t
  end.

(** [a[1::2]] *)
Definition stride2_from1 {A : Type} (l : list A) : list A := stride2 (tl l).

Definition frame_iq (raw : list byte) : list spec_float * list spec_float :=
  let iq := map center_scale (frombuffer_float32 raw) in
  (stride2 iq, stride2_from1 iq).

(** The mathematical value the spec assigns to a byte. *)
Definition exact_norm (b : byte) : Q :=
  ((inject_Z (byte_val b) - (255 # 2)) / (255 # 2))%Q.

(** Membership in the closed interval [-1, 1], decided on the floats. *)
Definition in_unit_interval (v : spec_float) : bool :=
  SFleb (F32.of_Z (-1)) v && SFleb v (F32.of_Z 1).

(** Half a unit in the last place of a binary32 value in [0.5, 1]. *)
Definition half_ulp32 : Q := Qpower (2 # 1) (-25).

Definition close_to_exact (b : byte) : bool :=
  Qle_bool (Qabs (SF2Q (normalize_byte b) - exact_norm b)) half_ulp32.

(** ** The denoising objective (lines 25-36) *)

Definition vec := list spec_float.

(** numpy's element-wise binary operations.  Both operands have the same
    length at every call of the script (numpy raises on other shapes; here
    the longer operand is cut, a case that never arises). *)
Fixpoint map2 {A B C : Type} (f : A -> B -> C) (l1 : list A) (l2 : list B)
  : list C :=
  match l1, l2 with
  | a :: t1, b :: t2 => f a b :: map2 f t1 t2
  | _, _ => []
  end.

(** Widening of a binary32 (or binary64) value to canonical binary64. *)
Definition as_float64 (x : spec_float) : spec_float :=
  match x with
  | S754_finite s m e => binary_normalize F64.prec F64.emax (cond_Zopp s (Zpos m)) e s
  | _ => x
  end.

(** [EPSILON**2] *)
Definition EPSILON_sq : spec_float := F64.mul EPSILON EPSILON.

Definition half : spec_float := F64.make 1 (-1).

(** [np.sum] of a binary64 vector, added from left to right (numpy groups
    the additions differently for long vectors; no statement below depends
    on the grouping). *)
Definition np_sum (v : vec) : spec_float := fold_left F64.add v F64.zero.

Definition smooth_l1_1 (x : spec_float) : spec_float :=
  F64.sqrt (F64.add (F64.mul x x) EPSILON_sq).

Definition smooth_l1 (x : vec) : vec := map smooth_l1_1 x.

Definition sq_residual (x t : spec_float) : spec_float :=
  let d := F64.sub x (as_float64 t) in F64.mul d d.

Definition cost_function_factory (target : vec) (x : vec) : spec_float :=
  F64.add (F64.mul half (np_sum (map2 sq_residual x target)))
          (F64.mul LAMBDA_L1 (np_sum (smooth_l1 x))).

Definition grad_1 (x t : spec_float) : spec_float :=
  F64.add (F64.sub x (as_float64 t))
          (F64.div (F64.mul LAMBDA_L1 x) (smooth_l1_1 x)).

Definition gradient_factory (target : vec) (x : vec) : vec :=
  map2 grad_1 x target.

(** ** [scipy.optimize.minimize(..., method="L-BFGS-B")]

    The script hands the objective, its gradient, the start point and
    [maxiter] to scipy.  The driver below is the outer loop of that routine:
    it copies the start point into the array it iterates on, tests the
    gradient norm, asks for one more iterate, stores it in the array, counts
    it, and stops at the cap.  What one iteration does (the limited-memory
    direction and the line search) is a parameter, so every statement proved
    about [minimize] holds whatever the inner iteration computes.  The
    objective is evaluated in binary64 here; which format a given scipy
    release evaluates it in depends on how it treats a binary32 start
    point. *)

Record OptimizeResult := {
  res_x : vec;              (* [result.x] *)
  res_success : bool;       (* [result.success] *)
  res_nit : nat             (* [result.nit] *)
}.

(** Default [gtol] of the method, [1e-5]. *)
Definition pgtol : spec_float := S754_finite false 5902958103587057 (-69).

(** Sup-norm of the gradient (no bounds are passed, so the projected
    gradient is the gradient). *)
Definition projgr (g : vec) : spec_float :=
  fold_left (fun acc gi => if SFltb acc (SFabs gi) then SFabs gi else acc)
            g F64.zero.

Definition gradient_small (g : vec) : bool := SFleb (projgr g) pgtol.

Inductive iteration_outcome (Memory : Type) :=
| NEW_X (mem : Memory) (x : vec)
    (* the line search accepted a new iterate *)
| STOP (x : vec) (converged : bool).
    (* the iteration ended the run: relative-reduction test met
       ([converged = true]) or abnormal line search ([false]) *)
Arguments NEW_X {Memory} mem x.
Arguments STOP {Memory} x converged.

Section Minimize.
Variable Memory : Type.
Variable mem0 : Memory.
Variable lbfgsb_iteration :
  (vec -> spec_float) -> (vec -> vec) -> Memory -> vec -> iteration_outcome Memory.

Variable cost : vec -> spec_float.
Variable jac : vec -> vec.

(** The routine keeps its iterate in one array, of the size of the start
    point, and every new iterate is written into that array:
    [overwrite x new] is the array [x] after the values [new] have been
    stored in it, slot by slot. *)
Fixpoint overwrite (x new : vec) : vec :=
  match x, new with
  | [], _ => []
  | _ :: _, [] => x
  | _ :: t, v :: new' => v :: overwrite t new'
  end.

(** [left] is the number of further iterates allowed after the next one:
    the loop stops once [nit >= maxiter], a test made after an iterate has
    been accepted. *)
Fixpoint lbfgsb_driver (left nit : nat) (mem : Memory) (x : vec)
    : OptimizeResult :=
  if gradient_small (jac x) then
    {| res_x := x; res_success := true; res_nit := nit |}
  else
    match lbfgsb_iteration cost jac mem x with
    | STOP x' conv =>
        {| res_x := overwrite x x'; res_success := conv; res_nit := nit |}
    | NEW_X mem' x' =>
        match left with
        | O =>
            {| res_x := overwrite x x'; res_success := false;
               res_nit := S nit |}
        | S left' => lbfgsb_driver left' (S nit) mem' (overwrite x x')
        end
    end.

Definition minimize (x0 : vec) (maxiter : nat) : OptimizeResult :=
  lbfgsb_driver (Nat.pred maxiter) 0 mem0 x0.
End Minimize.

(** ** [denoise_vector] (lines 38-47) *)

Definition zeros_like (data : vec) : vec := map (fun _ => F64.zero) data.

Definition MAXITER : nat := 30.

Section Denoiser.
Variable Memory : Type.
Variable mem0 : Memory.
Variable lbfgsb_iteration :
  (vec -> spec_float) -> (vec -> vec) -> Memory -> vec -> iteration_outcome Memory.

Definition denoise_result (data : vec) : OptimizeResult :=
  let x0 := zeros_like data in
  minimize Memory mem0 lbfgsb_iteration
           (cost_function_factory data) (gradient_factory data) x0 MAXITER.

Definition denoise_vector (data : vec) : vec := res_x (denoise_result data).
End Denoiser.

(** A concrete inner iteration, used to exercise the driver: steepest
    descent with a halving line search of at most [maxls = 20] trials; a
    trial is accepted only when it strictly lowers the objective. *)
Definition axpy (a : spec_float) (g x : vec) : vec :=
  map2 (fun xi gi => F64.sub xi (F64.mul a gi)) x g.

Fixpoint halving_search (cost : vec -> spec_float) (x g : vec)
    (a : spec_float) (maxls : nat) : option vec :=
  match maxls with
  | O => None
  | S k =>
      let t := axpy a g x in
      if SFltb (cost t) (cost x) then Some t
      else halving_search cost x g (F64.mul half a) k
  end.

Definition descent_iteration (cost : vec -> spec_float) (jac : vec -> vec)
    (mem : unit) (x : vec) : iteration_outcome unit :=
  match halving_search cost x (jac x) (F64.of_Z 1) 20 with
  | Some t => NEW_X tt t
  | None => STOP x false
  end.

(** ** Complex-sample assembly (line 109 and the cast of line 112) *)

Definition complex64 := (spec_float * spec_float)%type.

Definition as_float32 (x : spec_float) : spec_float :=
  match x with
  | S754_finite s m e => binary_normalize F32.prec F32.emax (cond_Zopp s (Zpos m)) e s
  | _ => x
  end.

(** [i_d + 1j * q_d]: the product [(0+1j) * (q+0j)] then the sum with
    [(i+0j)], in complex128; [.astype(np.complex64)] rounds both parts. *)
Definition assemble_1 (i q : spec_float) : complex64 :=
  let one := F64.of_Z 1 in
  let pr := F64.sub (F64.mul F64.zero q) (F64.mul one F64.zero) in
  let pi := F64.add (F64.mul F64.zero F64.zero) (F64.mul one q) in
  (as_float32 (F64.add i pr), as_float32 (F64.add F64.zero pi)).

Definition assemble (i_d q_d : vec) : list complex64 := map2 assemble_1 i_d q_d.

(** ** Shared state, processes, sockets and observable events *)

Inductive proc_status :=
| Running
| Killed      (* SIGKILL sent by [kill()], exit status not collected yet *)
| Reaped.     (* [wait()] returned *)

Record process := { p_freq : Z; p_status : proc_status }.

Inductive sock_status := Listening | Connected | Closed.

Inductive exn :=
| AttributeError          (* method call on [None] *)
| QueueEmpty
| BrokenPipeError
| ConnectionResetError
| OtherOSError            (* any other failure of [sendall] *)
| ValueError
| OverflowError.

Inductive message :=
| MsgStarting (freq : Z)
| MsgWaiting (port : Z)
| MsgConnected
| MsgChanging (freq : Z)
| MsgDisconnected
| MsgInvalid (e : exn)
| MsgExiting.

Inductive event :=
| Spawn (pid : nat) (freq : Z)        (* [subprocess.Popen(['rtl_sdr','-f',freq,...])] *)
| Kill (pid : nat)
| Wait (pid : nat)
| Listen (sid : nat) (port : Z)       (* [socket], [bind], [listen(1)] *)
| Accept (sid cid : nat)
| Read (pid : nat) (n : nat)          (* [proc.stdout.read] returned [n] bytes *)
| SendAll (cid : nat) (payload : list complex64) (failure : option exn)
| CloseSock (sid : nat)
| Print (m : message)
| Exit (code : Z).

Record State := {
  current_freq : Z;
  proc : option nat;            (* global [proc]: index into [procs] *)
  conn : option nat;            (* global [conn]: index into [socks] *)
  accepting : option nat;       (* local [s] of a [start_tcp_server] call blocked in [accept] *)
  freq_queue : list Z;          (* [freq_queue], oldest first *)
  terminate_flag : bool;
  procs : list process;         (* every child process spawned so far *)
  socks : list sock_status;     (* every socket created so far *)
  trace : list event            (* observable actions, oldest first *)
}.

Definition initial_state : State :=
  {| current_freq := DEFAULT_FREQ; proc := None; conn := None;
     accepting := None; freq_queue := []; terminate_flag := false;
     procs := []; socks := []; trace := [] |}.

Definition set_current_freq (f : Z) (st : State) : State :=
  {| current_freq := f; proc := proc st; conn := conn st;
     accepting := accepting st; freq_queue := freq_queue st;
     terminate_flag := terminate_flag st; procs := procs st;
     socks := socks st; trace := trace st |}.

Definition set_proc (p : option nat) (st : State) : State :=
  {| current_freq := current_freq st; proc := p; conn := conn st;
     accepting := accepting st; freq_queue := freq_queue st;
     terminate_flag := terminate_flag st; procs := procs st;
     socks := socks st; trace := trace st |}.

Definition set_conn (c : option nat) (st : State) : State :=
  {| current_freq := current_freq st; proc := proc st; conn := c;
     accepting := accepting st; freq_queue := freq_queue st;
     terminate_flag := terminate_flag st; procs := procs st;
     socks := socks st; trace := trace st |}.

Definition set_accepting (a : option nat) (st : State) : State :=
  {| current_freq := current_freq st; proc := proc st; conn := conn st;
     accepting := a; freq_queue := freq_queue st;
     terminate_flag := terminate_flag st; procs := procs st;
     socks := socks st; trace := trace st |}.

Definition set_freq_queue (q : list Z) (st : State) : State :=
  {| current_freq := current_freq st; proc := proc st; conn := conn st;
     accepting := accepting st; freq_queue := q;
     terminate_flag := terminate_flag st; procs := procs st;
     socks := socks st; trace := trace st |}.

Definition set_terminate_flag (b : bool) (st : State) : State :=
  {| current_freq := current_freq st; proc := proc st; conn := conn st;
     accepting := accepting st; freq_queue := freq_queue st;
     terminate_flag := b; procs := procs st;
     socks := socks st; trace := trace st |}.

Definition set_procs (ps : list process) (st : State) : State :=
  {| current_freq := current_freq st; proc := proc st; conn := conn st;
     accepting := accepting st; freq_queue := freq_queue st;
     terminate_flag := terminate_flag st; procs := ps;
     socks := socks st; trace := trace st |}.

Definition set_socks (ss : list sock_status) (st : State) : State :=
  {| current_freq := current_freq st; proc := proc st; conn := conn st;
     accepting := accepting st; freq_queue := freq_queue st;
     terminate_flag := terminate_flag st; procs := procs st;
     socks := ss; trace := trace st |}.

Definition log (e : event) (st : State) : State :=
  {| current_freq := current_freq st; proc := proc st; conn := conn st;
     accepting := accepting st; freq_queue := freq_queue st;
     terminate_flag := terminate_flag st; procs := procs st;
     socks := socks st; trace := trace st ++ [e] |}.

(** In-place update of one table entry; an index out of range changes
    nothing (handles are only ever obtained from the tables). *)
Fixpoint update {A : Type} (l : list A) (i : nat) (f : A -> A) : list A :=
  match l, i with
  | [], _ => []
  | x :: t, O => f x :: t
  | x :: t, S j => x :: update t j f
  end.

(** ** A state-and-exception monad for the statements of the script *)

Inductive result (A : Type) :=
| Ok (a : A) (st : State)
| Raise (e : exn) (st : State).
Arguments Ok {A} a st.
Arguments Raise {A} e st.

Definition M (A : Type) := State -> result A.

Definition ret {A : Type} (a : A) : M A := fun st => Ok a st.

Definition bind {A B : Type} (m : M A) (k : A -> M B) : M B :=
  fun st => match m st with
            | Ok a st' => k a st'
            | Raise e st' => Raise e st'
            end.

Declare Scope py_scope.
Delimit Scope py_scope with py.
Notation "x <- m ;; k" := (bind m (fun x => k))
  (at level 61, m at next level, right associativity) : py_scope.
Notation "m ;; k" := (bind m (fun _ => k))
  (at level 61, right associativity) : py_scope.
Local Open Scope py_scope.

Definition raise {A : Type} (e : exn) : M A := fun st => Raise e st.
Definition gets {A : Type} (f : State -> A) : M A := fun st => Ok (f st) st.
Definition modify (f : State -> State) : M unit := fun st => Ok tt (f st).
Definition emit (e : event) : M unit := modify (log e).
Definition print (m : message) : M unit := emit (Print m).

(** [try: body except <handled>: handler] *)
Definition try_except {A : Type} (body : M A) (handled : exn -> bool)
    (handler : exn -> M A) : M A :=
  fun st => match body st with
            | Ok a st' => Ok a st'
            | Raise e st' => if handled e then handler e st' else Raise e st'
            end.

Definition state_of {A : Type} (r : result A) : State :=
  match r with Ok _ st => st | Raise _ st => st end.

(** ** Capture process and delivery socket primitives *)

Definition kill_status (p : process) : process :=
  {| p_freq := p_freq p;
     p_status := match p_status p with Running => Killed | s => s end |}.

Definition wait_status (p : process) : process :=
  {| p_freq := p_freq p; p_status := Reaped |}.

(** [start_rtl_sdr(freq_hz)] (lines 49-54) *)
Definition start_rtl_sdr (freq_hz : Z) : M nat :=
  print (MsgStarting freq_hz) ;;
  pid <- gets (fun st => length (procs st)) ;;
  modify (fun st =>
    set_procs (procs st ++ [{| p_freq := freq_hz; p_status := Running |}]) st) ;;
  emit (Spawn pid freq_hz) ;;
  ret pid.

(** [proc.kill()] *)
Definition proc_kill : M unit :=
  p <- gets proc ;;
  match p with
  | None => raise AttributeError
  | Some pid =>
      modify (fun st => set_procs (update (procs st) pid kill_status) st) ;;
      emit (Kill pid)
  end.

(** [proc.wait()] *)
Definition proc_wait : M unit :=
  p <- gets proc ;;
  match p with
  | None => raise AttributeError
  | Some pid =>
      modify (fun st => set_procs (update (procs st) pid wait_status) st) ;;
      emit (Wait pid)
  end.

(** [start_tcp_server(port)] (lines 56-63), in the two halves separated by
    the blocking [accept]: lines 57-60, then lines 61-63. *)
Definition tcp_listen (port : Z) : M nat :=
  sid <- gets (fun st => length (socks st)) ;;
  modify (fun st => set_accepting (Some sid) (set_socks (socks st ++ [Listening]) st)) ;;
  emit (Listen sid port) ;;
  print (MsgWaiting port) ;;
  ret sid.

(** On return the frame holding the only reference to [s] is gone: the
    listening socket is released without any call of the script. *)
Definition tcp_accept (sid : nat) : M nat :=
  cid <- gets (fun st => length (socks st)) ;;
  modify (fun st => set_socks (socks st ++ [Connected]) st) ;;
  emit (Accept sid cid) ;;
  print MsgConnected ;;
  modify (fun st =>
    set_accepting None (set_socks (update (socks st) sid (fun _ => Closed)) st)) ;;
  ret cid.

Definition start_tcp_server (port : Z) : M nat :=
  sid <- tcp_listen port ;;
  tcp_accept sid.

(** [conn.sendall(payload)]; whether the transport fails is decided by the
    peer, so it is an input. *)
Definition conn_sendall (payload : list complex64) (failure : option exn) : M unit :=
  c <- gets conn ;;
  match c with
  | None => raise AttributeError
  | Some cid =>
      emit (SendAll cid payload failure) ;;
      match failure with
      | None => ret tt
      | Some e => raise e
      end
  end.

(** [conn.close()] *)
Definition conn_close : M unit :=
  c <- gets conn ;;
  match c with
  | None => raise AttributeError
  | Some cid =>
      modify (fun st => set_socks (update (socks st) cid (fun _ => Closed)) st) ;;
      emit (CloseSock cid)
  end.

(** ** [iq_processing_loop] (lines 77-116) *)

(** Body of the inner [while] for one dequeued value (lines 88-93). *)
Definition apply_frequency (new_freq : Z) : M unit :=
  cur <- gets current_freq ;;
  if new_freq =? cur then ret tt
  else
    print (MsgChanging new_freq) ;;
    modify (set_current_freq new_freq) ;;
    proc_kill ;;
    proc_wait ;;
    f <- gets current_freq ;;
    pid <- start_rtl_sdr f ;;
    modify (set_proc (Some pid)).

(** [while not freq_queue.empty(): new_freq = freq_queue.get_nowait(); ...]
    on the requests pending when the drain starts (requests of the operator
    thread enter between rounds, see [enqueue]).  Each round removes one
    element, so the length of the queue bounds the number of rounds, and
    [get_nowait] is only called on a non-empty queue. *)
Fixpoint drain_loop (rounds : nat) : M unit :=
  match rounds with
  | O => ret tt
  | S k =>
      q <- gets freq_queue ;;
      match q with
      | [] => ret tt
      | new_freq :: rest =>
          modify (set_freq_queue rest) ;;
          apply_frequency new_freq ;;
          drain_loop k
      end
  end.

Definition is_QueueEmpty (e : exn) : bool :=
  match e with QueueEmpty => true | _ => false end.

(** Lines 85-95. *)
Definition check_frequency_change : M unit :=
  try_except
    (n <- gets (fun st => length (freq_queue st)) ;; drain_loop n)
    is_QueueEmpty
    (fun _ => ret tt).

Definition is_disconnect (e : exn) : bool :=
  match e with
  | BrokenPipeError | ConnectionResetError => true
  | _ => false
  end.

Section Orchestrator.
(** The denoiser used by the loop; the statements about the loop hold for
    any function put here. *)
Variable denoise_vector : vec -> vec.

(** What one full chunk turns into (lines 102-109, and the cast of 112). *)
Definition payload_of (raw : list byte) : list complex64 :=
  let '(i, q) := frame_iq raw in
  let i_d := denoise_vector i in
  let q_d := denoise_vector q in
  assemble i_d q_d.

(** Lines 114-116. *)
Definition reconnect : M unit :=
  print MsgDisconnected ;;
  conn_close ;;
  c <- start_tcp_server PORT ;;
  modify (set_conn (Some c)).

(** Lines 98-116.  [raw] is what [proc.stdout.read(CHUNK_SIZE * 2)]
    returns this round and [send_failure] what [sendall] meets. *)
Definition read_denoise_send (raw : list byte) (send_failure : option exn)
    : M unit :=
  p <- gets proc ;;
  match p with
  | None => raise AttributeError
  | Some pid =>
      emit (Read pid (length raw)) ;;
      if (length raw <? CHUNK_SIZE * 2)%nat then ret tt
      else
        try_except
          (conn_sendall (payload_of raw) send_failure)
          is_disconnect
          (fun _ => reconnect)
  end.

(** One round of the outer [while] (lines 84-116). *)
Definition iteration (raw : list byte) (send_failure : option exn) : M unit :=
  check_frequency_change ;;
  read_denoise_send raw send_failure.

(** Lines 80-81. *)
Definition startup : M unit :=
  f <- gets current_freq ;;
  pid <- start_rtl_sdr f ;;
  modify (set_proc (Some pid)) ;;
  c <- start_tcp_server PORT ;;
  modify (set_conn (Some c)).

(** What the outside world supplies to one round: the requests the
    operator thread has queued since the previous drain, the bytes read,
    and the fate of the send. *)
Record tick := {
  arrivals : list Z;
  raw_read : list byte;
  send_failure_of : option exn
}.

Definition enqueue (fs : list Z) : M unit :=
  modify (fun st => set_freq_queue (freq_queue st ++ fs) st).

Fixpoint run (ticks : list tick) : M unit :=
  match ticks with
  | [] => ret tt
  | t :: rest =>
      enqueue (arrivals t) ;;
      iteration (raw_read t) (send_failure_of t) ;;
      run rest
  end.

Definition iq_processing_loop (ticks : list tick) : M unit :=
  startup ;; run ticks.
End Orchestrator.

(** ** The [KeyboardInterrupt] handler of [main] (lines 122-129) *)

Definition shutdown_handler : M unit :=
  print MsgExiting ;;
  modify (set_terminate_flag true) ;;
  p <- gets proc ;;
  (match p with Some _ => proc_kill | None => ret tt end) ;;
  c <- gets conn ;;
  (match c with Some _ => conn_close | None => ret tt end) ;;
  emit (Exit 0).

(** ** Reading a trace *)

(** The events a computation added, from the state before and after. *)
Definition emitted (st st' : State) : list event :=
  skipn (length (trace st)) (trace st').

(** Frequencies of the capture processes started, in order. *)
Fixpoint spawned (t : list event) : list Z :=
  match t with
  | [] => []
  | Spawn _ f :: t' => f :: spawned t'
  | _ :: t' => spawned t'
  end.

(** Payloads handed to [sendall], in order. *)
Fixpoint sent (t : list event) : list (list complex64) :=
  match t with
  | [] => []
  | SendAll _ payload _ :: t' => payload :: sent t'
  | _ :: t' => sent t'
  end.

(** Listening sockets opened, and connections accepted. *)
Fixpoint listens (t : list event) : list nat :=
  match t with
  | [] => []
  | Listen sid _ :: t' => sid :: listens t'
  | _ :: t' => listens t'
  end.

Fixpoint accepts (t : list event) : list nat :=
  match t with
  | [] => []
  | Accept _ cid :: t' => cid :: accepts t'
  | _ :: t' => accepts t'
  end.

(** Processes started and not yet waited for, after the events of [t],
    starting from the set [live]. *)
Fixpoint unreaped_after (t : list event) (live : list nat) : list nat :=
  match t with
  | [] => live
  | Spawn p _ :: t' => unreaped_after t' (live ++ [p])
  | Wait p :: t' => unreaped_after t' (remove Nat.eq_dec p live)
  | _ :: t' => unreaped_after t' live
  end.

(** The queued values that differ from the value in effect when they are
    dequeued, [cur] being in effect at the start. *)
Fixpoint changes (cur : Z) (q : list Z) : list Z :=
  match q with
  | [] => []
  | f :: rest => if f =? cur then changes cur rest else f :: changes f rest
  end.

(** ** Resource ownership *)

Definition is_reaped (p : process) : bool :=
  match p_status p with Reaped => true | _ => false end.

Definition is_running (p : process) : bool :=
  match p_status p with Running => true | _ => false end.

Definition is_closed (s : sock_status) : bool :=
  match s with Closed => true | _ => false end.

Definition is_handle (h : option nat) (i : nat) : bool :=
  match h with Some j => Nat.eqb i j | None => false end.

Definition in_range (h : option nat) (n : nat) : bool :=
  match h with Some j => Nat.ltb j n | None => true end.

Fixpoint all_from {A : Type} (i : nat) (ok : nat -> A -> bool) (l : list A) : bool :=
  match l with
  | [] => true
  | x :: t => ok i x && all_from (S i) ok t
  end.

(** Indices of the processes not reaped yet. *)
Fixpoint unreaped_from (i : nat) (ps : list process) : list nat :=
  match ps with
  | [] => []
  | p :: t => if is_reaped p then unreaped_from (S i) t
              else i :: unreaped_from (S i) t
  end.

Definition unreaped (st : State) : list nat := unreaped_from 0 (procs st).

(** Every process but the one held in [proc] has been reaped, every socket
    but the one held in [conn] and a listener with an accept pending is
    closed, and the handles point into the tables. *)
Definition well_owned (st : State) : bool :=
  all_from 0 (fun i p => is_handle (proc st) i || is_reaped p) (procs st)
  && all_from 0 (fun i s => is_handle (conn st) i || is_handle (accepting st) i
                            || is_closed s) (socks st)
  && in_range (proc st) (length (procs st))
  && in_range (conn st) (length (socks st))
  && in_range (accepting st) (length (socks st)).

(** The state of the main loop between two rounds: both handles set, no
    accept pending. *)
Definition in_loop (st : State) : bool :=
  match proc st, conn st, accepting st with
  | Some _, Some _, None => true
  | _, _, _ => false
  end.

Definition no_running_process (st : State) : Prop :=
  Forall (fun p => is_running p = false) (procs st).

Definition no_open_socket (st : State) : Prop :=
  Forall (fun s => is_closed s = true) (socks st).

(** A step that leaves the delivery side alone. *)
Definition sockets_untouched (st st' : State) : Prop :=
  conn st' = conn st /\ accepting st' = accepting st /\
  socks st' = socks st /\ terminate_flag st' = terminate_flag st.

(** The coalescing property as the specification words it: when several
    requests are pending and the last differs from the current frequency,
    the drain starts exactly one capture process, at the last value. *)
Definition coalesces_to_one_restart (st : State) : Prop :=
  (2 <= length (freq_queue st))%nat ->
  last (freq_queue st) (current_freq st) <> current_freq st ->
  spawned (emitted st (state_of (check_frequency_change st)))
  = [last (freq_queue st) (current_freq st)].

(** A read that returned a whole chunk (line 99). *)
Definition full_read (raw : list byte) : bool :=
  negb (length raw <? CHUNK_SIZE * 2)%nat.

(** ** States used as examples *)

(** After lines 80-81: capture process running, one consumer connected. *)
Definition st_running : State := state_of (startup initial_state).

(** The coalescing scenario of the spec: 101.0, 102.5 and 103.0 MHz queued
    while the receiver runs at the default 102.0 MHz. *)
Definition st_three_pending : State :=
  state_of (modify (set_freq_queue [101000000; 102500000; 103000000]) st_running).


(** The denoiser with the halving-search iteration, and a whole chunk of
    mid-scale samples. *)
Definition reference_denoiser : vec -> vec :=
  denoise_vector unit tt descent_iteration.

Definition full_chunk : list byte := repeat Byte.x7f (CHUNK_SIZE * 2).


(** The shutdown property as the specification words it: after the handler
    no capture process is running and no socket is open. *)
Definition shutdown_leaves_nothing (st : State) : Prop :=
  no_running_process (state_of (shutdown_handler st)) /\
  no_open_socket (state_of (shutdown_handler st)).

(** ** [frequency_input_loop] (lines 65-75) *)

(** [str.isspace] on the code points below 256. *)
Definition is_space (c : ascii) : bool :=
  let n := nat_of_ascii c in
  ((9 <=? n) && (n <=? 13) || (28 <=? n) && (n <=? 32)
   || (n =? 133) || (n =? 160))%nat.

Definition is_empty (s : string) : bool :=
  match s with EmptyString => true | _ => false end.

Fixpoint lstrip (s : string) : string :=
  match s with
  | EmptyString => EmptyString
  | String c t => if is_space c then lstrip t else s
  end.

Fixpoint rstrip (s : string) : string :=
  match s with
  | EmptyString => EmptyString
  | String c t =>
      let t' := rstrip t in
      if is_space c && is_empty t' then EmptyString else String c t'
  end.

(** [s.strip()] *)
Definition strip (s : string) : string := lstrip (rstrip s).

(** A line made of whitespace only (the empty line included). *)
Fixpoint all_space (s : string) : bool :=
  match s with
  | EmptyString => true
  | String c t => is_space c && all_space t
  end.

(** [1e6] is [0x1.e848p+19]. *)
Definition c1e6 : spec_float := S754_finite false 8589934592000000 (-33).

(** [int(x)] for a float [x]: the integer part, or an exception for the
    values that have none. *)
Definition py_int (x : spec_float) : exn + Z :=
  match x with
  | S754_nan => inl ValueError
  | S754_infinity _ => inl OverflowError
  | S754_zero _ => inr 0
  | S754_finite s m e =>
      inr (cond_Zopp s (if 0 <=? e then Zpos m * 2 ^ e
                        else Z.shiftr (Zpos m) (- e)))
  end.

(** Truncation toward zero of a rational. *)
Definition Qtrunc (q : Q) : Z := Z.quot (Qnum q) (Zpos (Qden q)).

Section FrequencyInput.
(** The builtin [float(str)]: [None] stands for its [ValueError]. *)
Variable py_float : string -> option spec_float.

(** Lines 72-73. *)
Definition parse_and_put (user_input : string) : M unit :=
  match py_float user_input with
  | None => raise ValueError
  | Some f =>
      match py_int (F64.mul f c1e6) with
      | inl e => raise e
      | inr new_freq =>
          modify (fun st => set_freq_queue (freq_queue st ++ [new_freq]) st)
      end
  end.

(** One round of the [while], for the line that [input] returned. *)
Definition frequency_input_body (line : string) : M unit :=
  try_except
    (let user_input := strip line in
     if is_empty user_input then ret tt
     else parse_and_put user_input)
    (fun _ => true)
    (fun e => print (MsgInvalid e)).
End FrequencyInput.

(** A reader for plain decimal literals [[+-]digits[.digits]], correctly
    rounded as [float] does; the other spellings [float] accepts (exponents,
    [inf], [nan], underscores) are outside it. *)
Definition digit_val (c : ascii) : option Z :=
  let n := nat_of_ascii c in
  if ((48 <=? n) && (n <=? 57))%nat then Some (Z.of_nat n - 48) else None.

(** Reads digits, returning the accumulated numerator, the number of digits
    read and the rest of the string. *)
Fixpoint read_digits (s : string) (acc : Z) (count : nat) : Z * nat * string :=
  match s with
  | EmptyString => (acc, count, s)
  | String c t =>
      match digit_val c with
      | Some d => read_digits t (10 * acc + d) (S count)
      | None => (acc, count, s)
      end
  end.

Definition decimal_quotient (neg : bool) (num : Z) (frac_digits : nat) : spec_float :=
  match num with
  | Zpos n =>
      F64.div (S754_finite neg n 0)
              (S754_finite false (Z.to_pos (10 ^ Z.of_nat frac_digits)) 0)
  | _ => S754_zero neg
  end.

Definition float_of_decimal (s : string) : option spec_float :=
  let '(neg, body) :=
    match s with
    | String "-"%char t => (true, t)
    | String "+"%char t => (false, t)
    | _ => (false, s)
    end in
  let '(ip, n1, rest) := read_digits body 0 0 in
  match rest with
  | EmptyString =>
      if (n1 =? 0)%nat then None else Some (decimal_quotient neg ip 0)
  | String "."%char t =>
      let '(num, n2, rest') := read_digits t ip 0 in
      match rest' with
      | EmptyString =>
          if (n1 + n2 =? 0)%nat then None
          else Some (decimal_quotient neg num n2)
      | _ => None
      end
  | _ => None
  end.

(** * Further definitions, for the properties of the whole script *)

(** The frequencies a state of the input loop may differ by: what one round
    of [frequency_input_loop] can do to the shared state. *)
Definition queued_or_reported (st st' : State) : Prop :=
  st' = st
  \/ (exists hz, st' = set_freq_queue (freq_queue st ++ [hz]) st)
  \/ (exists e, st' = log (Print (MsgInvalid e)) st).

(** The operator re-entered the frequency in use, twice. *)
Definition st_same_pending : State :=
  set_freq_queue [102000000; 102000000] st_running.

(** The process held in [proc] is running and tuned to [current_freq]. *)
Definition tuned (st : State) : Prop :=
  exists p, proc st = Some p /\
            nth_error (procs st) p
            = Some {| p_freq := current_freq st; p_status := Running |}.

(** The socket held in [conn] is a live connection. *)
Definition connected (st : State) : Prop :=
  exists c, conn st = Some c /\ nth_error (socks st) c = Some Connected.

(** At no point of the events [t], starting with the processes [live]
    unreaped, are two processes unreaped. *)
Definition one_at_a_time (live : list nat) (t : list event) : Prop :=
  forall k, (length (unreaped_after (firstn k t) live) <= 1)%nat.

(** Events that neither start nor reap a process. *)
Definition no_proc_event (e : event) : bool :=
  match e with
  | Spawn _ _ | Wait _ => false
  | _ => true
  end.

(** The outer [while not terminate_flag.is_set()] of line 83, with its test:
    the flag is read before each round. *)
Fixpoint run_while (denoise_vector : vec -> vec) (ticks : list tick) : M unit :=
  match ticks with
  | [] => ret tt
  | t :: rest =>
      stop <- gets terminate_flag ;;
      if stop then ret tt
      else
        enqueue (arrivals t) ;;
        iteration denoise_vector (raw_read t) (send_failure_of t) ;;
        run_while denoise_vector rest
  end.

(** A chunk of four bytes, as in the end-to-end scenario of the spec. *)
Definition small_chunk : list byte := [Byte.x7f; Byte.x80; Byte.x00; Byte.xff].

(** Putting two channels back in sample order. *)
Fixpoint interleave {A : Type} (l1 l2 : list A) : list A :=
  match l1, l2 with
  | a :: t1, b :: t2 => a :: b :: interleave t1 t2
  | _, _ => []
  end.

(** The byte value a framed sample stands for: [int(v * 127.5 + 127.5 + 0.5)]
    in binary32. *)
Definition denormalize (v : spec_float) : Z :=
  match py_int (F32.add (F32.add (F32.mul v c127_5) c127_5) (F32.make 1 (-1))) with
  | inr z => z
  | inl _ => 0
  end.

(** The byte values of the chunk two channels were framed from. *)
Definition unframe (iq : list spec_float * list spec_float) : list Z :=
  map denormalize (interleave (fst iq) (snd iq)).

(** A float that is a number: zero or finite. *)
Definition is_number (x : spec_float) : bool :=
  match x with
  | S754_zero _ | S754_finite _ _ _ => true
  | _ => false
  end.

(** * Properties *)

(** ** Sample framing *)

Lemma nth_error_stride2 {A : Type} (k : nat) :
  forall l : list A, nth_error (stride2 l) k = nth_error l (2 * k)%nat.
Proof.
  induction k as [|k IH]; intros [|x [|y t]]; try reflexivity.
  - destruct k; reflexivity.
  - replace (2 * S k)%nat with (S (S (2 * k))) by lia.
    simpl. apply IH.
Qed.

Lemma nth_error_stride2_from1 {A : Type} (k : nat) (l : list A) :
  nth_error (stride2_from1 l) k = nth_error l (2 * k + 1)%nat.
Proof.
  unfold stride2_from1. rewrite nth_error_stride2.
  destruct l as [|x t]; simpl.
  - destruct (k + (k + 0))%nat; reflexivity.
  - replace (k + (k + 0) + 1)%nat with (S (k + (k + 0))) by lia. reflexivity.
Qed.

Lemma stride2_length {A : Type} (n : nat) :
  forall l : list A,
    (length l = (2 * n)%nat -> length (stride2 l) = n) /\
    (length l = (2 * n + 1)%nat -> length (stride2 l) = S n).
Proof.
  induction n as [|n IH]; intros [|x [|y t]]; simpl; split; intros H;
    try reflexivity; try discriminate; try lia.
  - f_equal. apply (IH t). lia.
  - f_equal. apply (IH t). lia.
Qed.

Lemma normalize_byte_in_unit (b : byte) :
  in_unit_interval (normalize_byte b) = true.
Proof. destruct b; vm_compute; reflexivity. Qed.

Lemma normalize_byte_close (b : byte) : close_to_exact b = true.
Proof. destruct b; vm_compute; reflexivity. Qed.

Lemma Forall_stride2 {A : Type} (P : A -> Prop) (l : list A) :
  Forall P l -> Forall P (stride2 l) /\ Forall P (stride2_from1 l).
Proof.
  intros H. split; apply Forall_forall; intros v Hv;
    apply In_nth_error in Hv; destruct Hv as [k Hk];
    [rewrite nth_error_stride2 in Hk | rewrite nth_error_stride2_from1 in Hk];
    apply nth_error_In in Hk; revert v Hk; apply Forall_forall; exact H.
Qed.

Lemma frame_iq_nth (raw : list byte) (k : nat) :
  nth_error (fst (frame_iq raw)) k
    = option_map normalize_byte (nth_error raw (2 * k)%nat) /\
  nth_error (snd (frame_iq raw)) k
    = option_map normalize_byte (nth_error raw (2 * k + 1)%nat).
Proof.
  unfold frame_iq, frombuffer_float32; simpl.
  rewrite nth_error_stride2, nth_error_stride2_from1.
  rewrite map_map, !nth_error_map. split; reflexivity.
Qed.

(** C3. A chunk of 2*N bytes is framed into an I channel taken from the
    even-indexed bytes and a Q channel taken from the odd-indexed bytes, each
    of length N; every byte [b] becomes the binary32 value of
    [(b - 127.5) / 127.5] (within half a unit in the last place of the exact
    quotient), and every channel value lies in [-1, 1]. *)
Theorem frame_iq_channels (raw : list byte) (N : nat) :
  length raw = (2 * N)%nat ->
  let i := fst (frame_iq raw) in
  let q := snd (frame_iq raw) in
  length i = N /\ length q = N /\
  (forall k, (k < N)%nat ->
     exists bi bq,
       nth_error raw (2 * k)%nat = Some bi /\
       nth_error raw (2 * k + 1)%nat = Some bq /\
       nth_error i k = Some (normalize_byte bi) /\
       nth_error q k = Some (normalize_byte bq)) /\
  (forall b,
     normalize_byte b
       = F32.div (F32.sub (F32.of_Z (byte_val b)) c127_5) c127_5 /\
     (Qabs (SF2Q (normalize_byte b) - exact_norm b) <= half_ulp32)%Q) /\
  Forall (fun v => in_unit_interval v = true) i /\
  Forall (fun v => in_unit_interval v = true) q.
Proof.
  intros Hlen i q.
  assert (Hall : Forall (fun v => in_unit_interval v = true)
                   (map center_scale (frombuffer_float32 raw))).
  { unfold frombuffer_float32. rewrite map_map. apply Forall_forall.
    intros v Hv. apply in_map_iff in Hv. destruct Hv as [b [<- _]].
    apply normalize_byte_in_unit. }
  apply Forall_stride2 in Hall. destruct Hall as [HI HQ].
  assert (Hmap : length (map center_scale (frombuffer_float32 raw)) = (2 * N)%nat).
  { unfold frombuffer_float32. now rewrite !length_map. }
  repeat split.
  - apply (stride2_length N). exact Hmap.
  - subst q. unfold frame_iq, stride2_from1. simpl.
    destruct N as [|N].
    + destruct raw; [reflexivity | discriminate].
    + apply (stride2_length N).
      destruct (map center_scale (frombuffer_float32 raw)); simpl in *; lia.
  - intros k Hk.
    destruct (nth_error raw (2 * k)%nat) as [bi|] eqn:Ei.
    2:{ apply nth_error_None in Ei. lia. }
    destruct (nth_error raw (2 * k + 1)%nat) as [bq|] eqn:Eq.
    2:{ apply nth_error_None in Eq. lia. }
    exists bi, bq. destruct (frame_iq_nth raw k) as [Hi Hq].
    subst i q. rewrite Hi, Hq, Ei, Eq. repeat split; reflexivity.
  - apply Qle_bool_iff. apply normalize_byte_close.
  - exact HI.
  - exact HQ.
Qed.

(** The end-to-end scenario of the spec, on a four-byte chunk. *)
Example frame_iq_scenario :
  frame_iq [Byte.x7f; Byte.x80; Byte.x00; Byte.xff]
  = ([S754_finite true 8421505 (-31); S754_finite true 8388608 (-23)],
     [S754_finite false 8421505 (-31); S754_finite false 8388608 (-23)]).
Proof. reflexivity. Qed.

Lemma frame_iq_channels_witness :
  length [Byte.x7f; Byte.x80; Byte.x00; Byte.xff] = (2 * 2)%nat /\
  length (fst (frame_iq [Byte.x7f; Byte.x80; Byte.x00; Byte.xff])) = 2%nat.
Proof.
  split; [reflexivity|].
  apply (frame_iq_channels [Byte.x7f; Byte.x80; Byte.x00; Byte.xff] 2).
  reflexivity.
Defined.

(** ** The denoiser *)

Lemma map2_length {A B C : Type} (f : A -> B -> C) :
  forall (l1 : list A) (l2 : list B),
    length (map2 f l1 l2) = Nat.min (length l1) (length l2).
Proof.
  induction l1 as [|a t IH]; intros [|b t2]; simpl; try reflexivity.
  now rewrite IH.
Qed.

Lemma zeros_like_length (data : vec) : length (zeros_like data) = length data.
Proof. apply length_map. Qed.

Lemma gradient_factory_length (target x : vec) :
  length x = length target -> length (gradient_factory target x) = length x.
Proof.
  intros H. unfold gradient_factory. rewrite map2_length. lia.
Qed.

Lemma driver_converged (Memory : Type)
    (iter : (vec -> spec_float) -> (vec -> vec) -> Memory -> vec
            -> iteration_outcome Memory)
    (cost : vec -> spec_float) (jac : vec -> vec)
    (left nit : nat) (mem : Memory) (x : vec) :
  gradient_small (jac x) = true ->
  lbfgsb_driver Memory iter cost jac left nit mem x
  = {| res_x := x; res_success := true; res_nit := nit |}.
Proof. intros H. destruct left; simpl; rewrite H; reflexivity. Qed.

(** The gradient at the origin for a zero target is the zero vector,
    exactly, whatever the signs of the zeros of the target. *)
Lemma gradient_at_zero (signs : list bool) :
  gradient_factory (map S754_zero signs) (zeros_like (map S754_zero signs))
  = map (fun _ => F64.zero) signs.
Proof.
  unfold gradient_factory, zeros_like.
  induction signs as [|s t IH]; [reflexivity|].
  simpl. rewrite IH. f_equal. destruct s; vm_compute; reflexivity.
Qed.

Lemma projgr_zeros {A : Type} (l : list A) :
  projgr (map (fun _ => F64.zero) l) = F64.zero.
Proof.
  unfold projgr. induction l as [|a t IH]; simpl; [reflexivity | exact IH].
Qed.

Lemma gradient_small_zeros {A : Type} (l : list A) :
  gradient_small (map (fun _ => F64.zero) l) = true.
Proof.
  unfold gradient_small. rewrite projgr_zeros. reflexivity.
Qed.

(** C4. For the all-zero input of any length (zeros of either sign) the
    solver starts at the origin, finds a zero gradient there and returns the
    origin: the zero vector of the same length, without any iteration. *)
Theorem denoise_zero_fixed_point (Memory : Type) (mem0 : Memory)
    (iter : (vec -> spec_float) -> (vec -> vec) -> Memory -> vec
            -> iteration_outcome Memory)
    (signs : list bool) :
  denoise_vector Memory mem0 iter (map S754_zero signs)
    = repeat (S754_zero false) (length signs) /\
  res_nit (denoise_result Memory mem0 iter (map S754_zero signs)) = 0%nat /\
  res_success (denoise_result Memory mem0 iter (map S754_zero signs)) = true.
Proof.
  unfold denoise_vector, denoise_result, minimize.
  rewrite driver_converged.
  - simpl. repeat split. unfold zeros_like. rewrite map_map.
    clear. induction signs as [|s t IH]; simpl; [reflexivity | now rewrite IH].
  - rewrite gradient_at_zero. apply gradient_small_zeros.
Qed.

Lemma overwrite_length (x new : vec) : length (overwrite x new) = length x.
Proof.
  revert new. induction x as [|a t IH]; intros [|v new']; simpl;
    try reflexivity.
  now rewrite IH.
Qed.

(** An iterate of the right size replaces the old one entirely. *)
Lemma overwrite_full (x new : vec) :
  length new = length x -> overwrite x new = new.
Proof.
  revert new. induction x as [|a t IH]; intros [|v new'] H; simpl in *;
    try reflexivity; try discriminate H.
  f_equal. apply IH. lia.
Qed.

(** The iterate keeps the size of the start point through the whole run,
    whatever the inner iteration computes. *)
Lemma driver_length (Memory : Type)
    (iter : (vec -> spec_float) -> (vec -> vec) -> Memory -> vec
            -> iteration_outcome Memory)
    (cost : vec -> spec_float) (jac : vec -> vec) :
  forall budget nit mem x,
    length (res_x (lbfgsb_driver Memory iter cost jac budget nit mem x))
    = length x.
Proof.
  induction budget as [|budget IH]; intros nit mem x; simpl;
    (destruct (gradient_small (jac x)); [reflexivity|]);
    destruct (iter cost jac mem x) as [mem' x'|x' conv]; simpl;
    try apply overwrite_length.
  rewrite IH. apply overwrite_length.
Qed.


(** ** Tables, traces and the monad *)

Lemma update_length {A : Type} (f : A -> A) :
  forall (l : list A) i, length (update l i f) = length l.
Proof.
  induction l as [|x t IH]; intros [|i]; simpl; try reflexivity.
  now rewrite IH.
Qed.

Lemma nth_error_update {A : Type} (f : A -> A) :
  forall (l : list A) i k,
    nth_error (update l i f) k
    = if Nat.eqb k i then option_map f (nth_error l k) else nth_error l k.
Proof.
  induction l as [|x t IH]; intros [|i] [|k]; simpl; try reflexivity.
  - destruct (Nat.eqb k i); reflexivity.
  - apply IH.
Qed.

Lemma all_from_spec {A : Type} (ok : nat -> A -> bool) :
  forall (l : list A) i,
    all_from i ok l = true <->
    (forall k x, nth_error l k = Some x -> ok (i + k)%nat x = true).
Proof.
  induction l as [|a t IH]; intros i; simpl.
  - split; [intros _ [|k] x; discriminate | reflexivity].
  - rewrite andb_true_iff, IH. split.
    + intros [Ha Ht] [|k] x; simpl.
      * intros [= <-]. now rewrite Nat.add_0_r.
      * intros Hk. rewrite <- Nat.add_succ_comm. now apply Ht.
    + intros H. split.
      * specialize (H 0%nat a eq_refl). now rewrite Nat.add_0_r in H.
      * intros k x Hk. rewrite Nat.add_succ_comm. now apply (H (S k)).
Qed.

Lemma emitted_app (st st' : State) (evs : list event) :
  trace st' = trace st ++ evs -> emitted st st' = evs.
Proof.
  intros H. unfold emitted. rewrite H.
  rewrite skipn_app, skipn_all, Nat.sub_diag. reflexivity.
Qed.

Lemma spawned_app (t1 t2 : list event) :
  spawned (t1 ++ t2) = spawned t1 ++ spawned t2.
Proof.
  induction t1 as [|e t IH]; [reflexivity|].
  destruct e; simpl; rewrite IH; reflexivity.
Qed.

(** ** Applying one dequeued frequency *)

Lemma apply_frequency_same (st : State) :
  apply_frequency (current_freq st) st = Ok tt st.
Proof.
  unfold apply_frequency, bind, gets. now rewrite Z.eqb_refl.
Qed.

(** The restart of lines 89-93, spelled out. *)
Lemma apply_frequency_changed (st : State) (p : nat) (f : Z) :
  proc st = Some p ->
  f <> current_freq st ->
  exists st',
    apply_frequency f st = Ok tt st' /\
    trace st' = trace st ++ [Print (MsgChanging f); Kill p; Wait p;
                             Print (MsgStarting f);
                             Spawn (length (procs st)) f] /\
    procs st' = update (procs st) p wait_status
                ++ [{| p_freq := f; p_status := Running |}] /\
    proc st' = Some (length (procs st)) /\
    current_freq st' = f /\
    conn st' = conn st /\ accepting st' = accepting st /\
    socks st' = socks st /\ freq_queue st' = freq_queue st /\
    terminate_flag st' = terminate_flag st.
Proof.
  intros Hp Hf. unfold apply_frequency, bind, gets.
  destruct (Z.eqb_spec f (current_freq st)) as [E|_]; [contradiction|].
  destruct st as [cf pr cn ac q tf ps ss tr]; cbn in Hp; subst pr.
  cbn. eexists. split; [reflexivity|]. cbn.
  rewrite !update_length, <- !app_assoc. cbn.
  repeat split.
  f_equal. clear. revert p. induction ps as [|x t IH]; intros [|p];
    cbn; try reflexivity; now rewrite IH.
Qed.

Lemma well_owned_parts (st : State) :
  well_owned st = true <->
  (forall k x, nth_error (procs st) k = Some x ->
     is_handle (proc st) k || is_reaped x = true) /\
  (forall k x, nth_error (socks st) k = Some x ->
     is_handle (conn st) k || is_handle (accepting st) k || is_closed x = true) /\
  in_range (proc st) (length (procs st)) = true /\
  in_range (conn st) (length (socks st)) = true /\
  in_range (accepting st) (length (socks st)) = true.
Proof.
  unfold well_owned. rewrite !andb_true_iff, !all_from_spec. simpl. tauto.
Qed.

Lemma well_owned_after_restart (st st' : State) (p : nat) (f : Z) :
  well_owned st = true ->
  proc st = Some p ->
  procs st' = update (procs st) p wait_status
              ++ [{| p_freq := f; p_status := Running |}] ->
  proc st' = Some (length (procs st)) ->
  sockets_untouched st st' ->
  well_owned st' = true.
Proof.
  intros Hw Hp Hps Hpr [Hc [Ha [Hs _]]].
  apply well_owned_parts in Hw. destruct Hw as [H1 [H2 [H3 [H4 H5]]]].
  apply well_owned_parts. rewrite Hps, Hpr, Hc, Ha, Hs.
  repeat split; try assumption.
  - intros k x Hk. simpl.
    destruct (Nat.eqb_spec k (length (procs st))) as [E|E]; [reflexivity|].
    simpl. assert (Hlt : (k < length (procs st))%nat).
    { assert (Hs' : (k < length (update (procs st) p wait_status
                                  ++ [{| p_freq := f; p_status := Running |}]))%nat)
        by (apply nth_error_Some; congruence).
      rewrite length_app, update_length in Hs'. simpl in Hs'. lia. }
    rewrite nth_error_app1 in Hk by now rewrite update_length.
    rewrite nth_error_update in Hk.
    destruct (Nat.eqb_spec k p) as [Ekp|Ekp].
    + destruct (nth_error (procs st) k); [|discriminate].
      injection Hk as <-. reflexivity.
    + specialize (H1 k x Hk). rewrite Hp in H1. simpl in H1.
      apply Nat.eqb_neq in Ekp. now rewrite Ekp in H1.
  - simpl. apply Nat.ltb_lt. rewrite length_app, update_length. simpl. lia.
Qed.

(** ** Draining the frequency queue *)

Lemma last_cons {A : Type} (l : list A) :
  forall a d, last (a :: l) d = last l a.
Proof.
  induction l as [|b t IH]; intros a d; [reflexivity|].
  change (last (a :: b :: t) d) with (last (b :: t) d).
  rewrite !IH. reflexivity.
Qed.

Lemma changes_last (q : list Z) :
  forall cur, last (changes cur q) cur = last q cur.
Proof.
  induction q as [|f rest IH]; intros cur; [reflexivity|].
  cbn [changes]. rewrite (last_cons rest f cur).
  destruct (Z.eqb_spec f cur) as [->|Hne].
  - apply IH.
  - rewrite last_cons. apply IH.
Qed.

Lemma changes_nonempty (q : list Z) (cur : Z) :
  last q cur <> cur -> changes cur q <> [].
Proof.
  intros H E. apply H. rewrite <- changes_last, E. reflexivity.
Qed.

Lemma sent_app (t1 t2 : list event) : sent (t1 ++ t2) = sent t1 ++ sent t2.
Proof.
  induction t1 as [|e t IH]; [reflexivity|].
  destruct e; simpl; rewrite IH; reflexivity.
Qed.

Lemma listens_app (t1 t2 : list event) :
  listens (t1 ++ t2) = listens t1 ++ listens t2.
Proof.
  induction t1 as [|e t IH]; [reflexivity|].
  destruct e; simpl; rewrite IH; reflexivity.
Qed.

Lemma accepts_app (t1 t2 : list event) :
  accepts (t1 ++ t2) = accepts t1 ++ accepts t2.
Proof.
  induction t1 as [|e t IH]; [reflexivity|].
  destruct e; simpl; rewrite IH; reflexivity.
Qed.

(** The inner [while] empties the queue; it restarts the capture process
    once for each value that differs from the one before it, and touches
    nothing on the delivery side. *)
Lemma drain_loop_spec (n : nat) :
  forall st p,
    proc st = Some p ->
    (length (freq_queue st) <= n)%nat ->
    exists st' evs,
      drain_loop n st = Ok tt st' /\
      trace st' = trace st ++ evs /\
      spawned evs = changes (current_freq st) (freq_queue st) /\
      sent evs = [] /\
      current_freq st' = last (freq_queue st) (current_freq st) /\
      freq_queue st' = [] /\
      (exists p', proc st' = Some p') /\
      sockets_untouched st st' /\
      (well_owned st = true -> well_owned st' = true) /\
      listens evs = [] /\ accepts evs = [].
Proof.
  induction n as [|n IH]; intros st p Hp Hlen.
  - destruct (freq_queue st) as [|f rest] eqn:Hq; [|simpl in Hlen; lia].
    exists st, []. cbn. rewrite app_nil_r, Hq.
    repeat split; eauto.
  - cbn [drain_loop]. unfold bind at 1. unfold gets at 1.
    destruct (freq_queue st) as [|f rest] eqn:Hq.
    + exists st, []. cbn. rewrite app_nil_r, Hq. repeat split; eauto.
    + set (st1 := set_freq_queue rest st).
      assert (Hp1 : proc st1 = Some p) by exact Hp.
      assert (Hlen1 : (length (freq_queue st1) <= n)%nat)
        by (cbn; simpl in Hlen; lia).
      cbn [changes]. rewrite last_cons.
      unfold bind at 1. unfold modify at 1. fold st1. unfold bind at 1.
      destruct (Z.eqb_spec f (current_freq st)) as [->|Hne].
      * change (current_freq st) with (current_freq st1) at 1.
        rewrite apply_frequency_same.
        destruct (IH st1 p Hp1 Hlen1)
          as [st' [evs [Hr [Ht [Hs [Hn [Hc [Hqe [Hp' [Hu [Hw [Hli Hac]]]]]]]]]]]].
        exists st', evs. repeat split; try assumption; try apply Hu.
      * destruct (apply_frequency_changed st1 p f Hp1 Hne)
          as [st2 [Hr2 [Ht2 [Hps2 [Hpr2 [Hcf2 [Hc2 [Ha2 [Hs2 [Hq2 Hf2]]]]]]]]]].
        rewrite Hr2.
        assert (Hlen2 : (length (freq_queue st2) <= n)%nat) by now rewrite Hq2.
        destruct (IH st2 _ Hpr2 Hlen2)
          as [st' [evs [Hr [Ht [Hs [Hn [Hc [Hqe [Hp' [Hu [Hw [Hli Hac]]]]]]]]]]]].
        exists st'. eexists. split; [exact Hr|].
        split; [rewrite Ht, Ht2, <- app_assoc; reflexivity|].
        destruct Hu as [Hu1 [Hu2 [Hu3 Hu4]]].
        repeat split; try assumption.
        -- rewrite spawned_app, Hs, Hcf2, Hq2. reflexivity.
        -- rewrite Hc, Hcf2, Hq2. reflexivity.
        -- rewrite Hu1, Hc2. reflexivity.
        -- rewrite Hu2, Ha2. reflexivity.
        -- rewrite Hu3, Hs2. reflexivity.
        -- rewrite Hu4, Hf2. reflexivity.
        -- intros Hwo. apply Hw.
           apply (well_owned_after_restart st1 st2 p f); try assumption.
           repeat split; assumption.
Qed.

Lemma check_frequency_change_spec (st : State) (p : nat) :
  proc st = Some p ->
  exists st' evs,
    check_frequency_change st = Ok tt st' /\
    trace st' = trace st ++ evs /\
    spawned evs = changes (current_freq st) (freq_queue st) /\
    sent evs = [] /\
    current_freq st' = last (freq_queue st) (current_freq st) /\
    freq_queue st' = [] /\
    (exists p', proc st' = Some p') /\
    sockets_untouched st st' /\
    (well_owned st = true -> well_owned st' = true) /\
    listens evs = [] /\ accepts evs = [].
Proof.
  intros Hp.
  destruct (drain_loop_spec (length (freq_queue st)) st p Hp (le_n _))
    as [st' [evs [Hr H]]].
  exists st', evs. split; [|exact H].
  unfold check_frequency_change, try_except, bind, gets. now rewrite Hr.
Qed.

(** C1, as the code has it.  With requests pending and the last one
    different from the current frequency, one drain restarts the capture
    process once for every queued value that differs from the value in
    effect when it is dequeued: at least once, the last restart being at the
    last queued value, which is the current frequency afterwards. *)
Theorem drain_restarts_per_change (st : State) (p : nat) :
  proc st = Some p ->
  freq_queue st <> [] ->
  last (freq_queue st) (current_freq st) <> current_freq st ->
  exists st',
    check_frequency_change st = Ok tt st' /\
    spawned (emitted st st') = changes (current_freq st) (freq_queue st) /\
    spawned (emitted st st') <> [] /\
    last (spawned (emitted st st')) (current_freq st)
      = last (freq_queue st) (current_freq st) /\
    current_freq st' = last (freq_queue st) (current_freq st) /\
    freq_queue st' = [].
Proof.
  intros Hp _ Hlast.
  destruct (check_frequency_change_spec st p Hp)
    as [st' [evs [Hr [Ht [Hs [_ [Hc [Hq _]]]]]]]].
  exists st'. rewrite (emitted_app st st' evs Ht), Hs.
  repeat split; try assumption.
  - now apply changes_nonempty.
  - apply changes_last.
Qed.

Lemma drain_restarts_per_change_witness :
  proc st_three_pending = Some 0%nat /\
  freq_queue st_three_pending <> [] /\
  last (freq_queue st_three_pending) (current_freq st_three_pending)
    <> current_freq st_three_pending /\
  exists st',
    check_frequency_change st_three_pending = Ok tt st' /\
    spawned (emitted st_three_pending st')
      = changes (current_freq st_three_pending) (freq_queue st_three_pending) /\
    spawned (emitted st_three_pending st') <> [] /\
    last (spawned (emitted st_three_pending st')) (current_freq st_three_pending)
      = last (freq_queue st_three_pending) (current_freq st_three_pending) /\
    current_freq st' = last (freq_queue st_three_pending)
                            (current_freq st_three_pending) /\
    freq_queue st' = [].
Proof.
  assert (H1 : proc st_three_pending = Some 0%nat) by reflexivity.
  assert (H2 : freq_queue st_three_pending <> []) by (vm_compute; discriminate).
  assert (H3 : last (freq_queue st_three_pending) (current_freq st_three_pending)
               <> current_freq st_three_pending) by (vm_compute; discriminate).
  repeat split; try assumption.
  exact (drain_restarts_per_change st_three_pending 0 H1 H2 H3).
Defined.

(** C1 as stated fails on the scenario of the spec: the three pending
    requests cause three restarts, not one. *)
Lemma coalescing_counterexample :
  spawned (emitted st_three_pending
             (state_of (check_frequency_change st_three_pending)))
    = [101000000; 102500000; 103000000] /\
  ~ coalesces_to_one_restart st_three_pending.
Proof.
  split; [reflexivity|].
  intros H.
  assert (H2 : (2 <= length (freq_queue st_three_pending))%nat)
    by (vm_compute; lia).
  assert (H3 : last (freq_queue st_three_pending) (current_freq st_three_pending)
               <> current_freq st_three_pending) by (vm_compute; discriminate).
  specialize (H H2 H3). vm_compute in H. discriminate H.
Qed.

(** ** Teardown before start-up *)

Lemma unreaped_owned (p : nat) (ps : list process) :
  forall i,
    all_from i (fun k x => is_handle (Some p) k || is_reaped x) ps = true ->
    unreaped_from i ps = [] \/ (unreaped_from i ps = [p] /\ (i <= p)%nat).
Proof.
  induction ps as [|x t IH]; intros i H; [now left|].
  simpl in H. apply andb_true_iff in H. destruct H as [Hx Ht].
  specialize (IH (S i) Ht). simpl.
  destruct (is_reaped x).
  - destruct IH as [E|[E Hle]]; [now left | right; split; [exact E | lia]].
  - rewrite orb_false_r in Hx. apply Nat.eqb_eq in Hx. subst i.
    destruct IH as [E|[E Hle]]; [right; rewrite E; split; [reflexivity | lia] | lia].
Qed.

Lemma unreaped_of_owned (st : State) (p : nat) :
  well_owned st = true -> proc st = Some p ->
  unreaped st = [] \/ unreaped st = [p].
Proof.
  unfold well_owned, unreaped. rewrite !andb_true_iff.
  intros [[[[H _] _] _] _] Hp. rewrite Hp in H.
  destruct (unreaped_owned p (procs st) 0 H) as [E|[E _]]; [now left | now right].
Qed.

Lemma unreaped_from_In (ps : list process) :
  forall i k x,
    nth_error ps k = Some x -> is_reaped x = false ->
    In (i + k)%nat (unreaped_from i ps).
Proof.
  induction ps as [|y t IH]; intros i [|k] x Hk Hx; try discriminate.
  - injection Hk as ->. simpl. rewrite Hx, Nat.add_0_r. now left.
  - simpl in Hk. simpl. rewrite <- Nat.add_succ_comm.
    destruct (is_reaped y); [|right]; eapply IH; eassumption.
Qed.

(** C5. Applying a frequency change kills the old capture process and
    waits for it before the new one is started: in the events of the change
    the kill and the wait of the old process precede the start of the new
    one, no process is unreaped at the moment of the start, and at no point
    of the change are two processes unreaped. *)
Theorem restart_reaps_before_start (st : State) (p : nat) (f : Z) :
  well_owned st = true ->
  proc st = Some p ->
  f <> current_freq st ->
  exists st' p',
    apply_frequency f st = Ok tt st' /\
    emitted st st' = [Print (MsgChanging f); Kill p; Wait p;
                      Print (MsgStarting f); Spawn p' f] /\
    p' <> p /\
    proc st' = Some p' /\
    unreaped_after [Print (MsgChanging f); Kill p; Wait p;
                    Print (MsgStarting f)] (unreaped st) = [] /\
    (forall k, (length (unreaped_after (firstn k (emitted st st'))
                          (unreaped st)) <= 1)%nat) /\
    unreaped st' = [p'] /\
    well_owned st' = true.
Proof.
  intros Hw Hp Hf.
  destruct (apply_frequency_changed st p f Hp Hf)
    as [st' [Hr [Ht [Hps [Hpr [Hcf [Hc [Ha [Hs [Hq Htf]]]]]]]]]].
  assert (Hw' : well_owned st' = true).
  { apply (well_owned_after_restart st st' p f); try assumption.
    repeat split; assumption. }
  assert (Hlt : (p < length (procs st))%nat).
  { apply well_owned_parts in Hw. destruct Hw as [_ [_ [H3 _]]].
    rewrite Hp in H3. now apply Nat.ltb_lt in H3. }
  assert (Hwait : forall live, live = [] \/ live = [p] ->
                    remove Nat.eq_dec p live = []).
  { intros live [->| ->]; [reflexivity|]. simpl.
    destruct (Nat.eq_dec p p); [reflexivity | contradiction]. }
  pose proof (unreaped_of_owned st p Hw Hp) as Hlive.
  exists st', (length (procs st)).
  rewrite (emitted_app st st' _ Ht).
  repeat split; try assumption.
  - lia.
  - simpl. now apply Hwait.
  - intros k. do 5 (destruct k as [|k]; [simpl; try rewrite (Hwait _ Hlive);
      try (destruct Hlive as [-> | ->]); simpl; lia|]).
    simpl. rewrite firstn_nil. simpl. rewrite (Hwait _ Hlive). simpl. lia.
  - destruct (unreaped_of_owned st' _ Hw' Hpr) as [E|E]; [|exact E].
    exfalso.
    assert (Hin : In (0 + length (procs st))%nat (unreaped_from 0 (procs st'))).
    { apply (unreaped_from_In _ 0 _ {| p_freq := f; p_status := Running |});
        [|reflexivity].
      rewrite Hps, nth_error_app2 by (rewrite update_length; lia).
      rewrite update_length, Nat.sub_diag. reflexivity. }
    unfold unreaped in E. rewrite E in Hin. exact Hin.
Qed.

Lemma restart_reaps_before_start_witness :
  well_owned st_running = true /\
  proc st_running = Some 0%nat /\
  103000000 <> current_freq st_running /\
  exists st' p',
    apply_frequency 103000000 st_running = Ok tt st' /\
    emitted st_running st'
      = [Print (MsgChanging 103000000); Kill 0; Wait 0;
         Print (MsgStarting 103000000); Spawn p' 103000000] /\
    p' <> 0%nat /\
    proc st' = Some p' /\
    unreaped_after [Print (MsgChanging 103000000); Kill 0; Wait 0;
                    Print (MsgStarting 103000000)] (unreaped st_running) = [] /\
    (forall k, (length (unreaped_after (firstn k (emitted st_running st'))
                          (unreaped st_running)) <= 1)%nat) /\
    unreaped st' = [p'] /\
    well_owned st' = true.
Proof.
  assert (H1 : well_owned st_running = true) by reflexivity.
  assert (H2 : proc st_running = Some 0%nat) by reflexivity.
  assert (H3 : 103000000 <> current_freq st_running) by (vm_compute; discriminate).
  repeat split; try assumption.
  exact (restart_reaps_before_start st_running 0 103000000 H1 H2 H3).
Defined.

(** ** Shutdown *)

Lemma shutdown_handler_spec (st : State) :
  exists st',
    shutdown_handler st = Ok tt st' /\
    trace st' = trace st
                ++ Print MsgExiting
                   :: match proc st with Some p => [Kill p] | None => [] end
                ++ match conn st with Some c => [CloseSock c] | None => [] end
                ++ [Exit 0] /\
    terminate_flag st' = true /\
    procs st' = match proc st with
                | Some p => update (procs st) p kill_status
                | None => procs st
                end /\
    socks st' = match conn st with
                | Some c => update (socks st) c (fun _ => Closed)
                | None => socks st
                end /\
    proc st' = proc st /\ conn st' = conn st /\ accepting st' = accepting st.
Proof.
  destruct st as [cf [p|] [c|] ac q tf ps ss tr]; cbn;
    eexists; (split; [reflexivity|]); cbn; rewrite <- ?app_assoc;
    repeat split.
Qed.




(** ** One round of the processing loop *)

Lemma update_app_at {A : Type} (f : A -> A) (l : list A) (x : A) (t : list A) :
  update (l ++ x :: t) (length l) f = l ++ f x :: t.
Proof.
  induction l as [|y l' IH]; cbn; [reflexivity | now rewrite IH].
Qed.

Section Rounds.
Variable denoise_vector : vec -> vec.

Lemma read_short (st : State) (p : nat) (raw : list byte) (fail : option exn) :
  proc st = Some p ->
  (length raw < CHUNK_SIZE * 2)%nat ->
  read_denoise_send denoise_vector raw fail st
  = Ok tt (log (Read p (length raw)) st).
Proof.
  intros Hp Hs. apply Nat.ltb_lt in Hs.
  unfold read_denoise_send, bind, gets, emit, modify. rewrite Hp, Hs.
  reflexivity.
Qed.

Lemma read_full_sent (st : State) (p c : nat) (raw : list byte) :
  proc st = Some p -> conn st = Some c ->
  (CHUNK_SIZE * 2 <= length raw)%nat ->
  read_denoise_send denoise_vector raw None st
  = Ok tt (log (SendAll c (payload_of denoise_vector raw) None)
             (log (Read p (length raw)) st)).
Proof.
  intros Hp Hc Hs. apply Nat.ltb_ge in Hs.
  unfold read_denoise_send, bind, gets, emit, modify. rewrite Hp, Hs.
  unfold try_except, conn_sendall, bind, gets, emit, modify.
  cbn [conn log]. rewrite Hc. reflexivity.
Qed.

Lemma read_full_uncaught (st : State) (p c : nat) (raw : list byte) (e : exn) :
  proc st = Some p -> conn st = Some c ->
  (CHUNK_SIZE * 2 <= length raw)%nat ->
  is_disconnect e = false ->
  read_denoise_send denoise_vector raw (Some e) st
  = Raise e (log (SendAll c (payload_of denoise_vector raw) (Some e))
               (log (Read p (length raw)) st)).
Proof.
  intros Hp Hc Hs He. apply Nat.ltb_ge in Hs.
  unfold read_denoise_send, bind, gets, emit, modify. rewrite Hp, Hs.
  unfold try_except, conn_sendall, bind, gets, emit, modify, raise.
  cbn [conn log]. rewrite Hc, He. reflexivity.
Qed.

Lemma read_full_disconnected (st : State) (p c : nat) (raw : list byte) (e : exn) :
  proc st = Some p -> conn st = Some c ->
  (CHUNK_SIZE * 2 <= length raw)%nat ->
  is_disconnect e = true ->
  exists st',
    read_denoise_send denoise_vector raw (Some e) st = Ok tt st' /\
    trace st' = trace st
                ++ [Read p (length raw);
                    SendAll c (payload_of denoise_vector raw) (Some e);
                    Print MsgDisconnected; CloseSock c;
                    Listen (length (socks st)) PORT; Print (MsgWaiting PORT);
                    Accept (length (socks st)) (S (length (socks st)));
                    Print MsgConnected] /\
    socks st' = update (socks st) c (fun _ => Closed) ++ [Closed; Connected] /\
    conn st' = Some (S (length (socks st))) /\
    accepting st' = None /\
    proc st' = proc st /\ procs st' = procs st /\
    current_freq st' = current_freq st /\ freq_queue st' = freq_queue st /\
    terminate_flag st' = terminate_flag st.
Proof.
  intros Hp Hc Hs He. apply Nat.ltb_ge in Hs.
  unfold read_denoise_send, bind, gets, emit, modify. rewrite Hp, Hs.
  unfold try_except, conn_sendall, bind, gets, emit, modify, raise.
  cbn [conn log]. rewrite Hc, He.
  destruct st as [cf pr cn ac q tf ps ss tr]; cbn in Hp, Hc; subst pr cn.
  cbn. eexists. split; [reflexivity|]. cbn.
  rewrite !length_app, !update_length, <- !app_assoc. cbn.
  rewrite Nat.add_1_r. repeat split.
  rewrite <- (update_length (fun _ => Closed) ss c) at 1.
  apply (update_app_at (fun _ => Closed)).
Qed.
End Rounds.

Lemma well_owned_after_reconnect (st st' : State) (c : nat) :
  well_owned st = true ->
  conn st = Some c ->
  accepting st = None ->
  socks st' = update (socks st) c (fun _ => Closed) ++ [Closed; Connected] ->
  conn st' = Some (S (length (socks st))) ->
  accepting st' = None ->
  proc st' = proc st -> procs st' = procs st ->
  well_owned st' = true.
Proof.
  intros Hw Hc Ha Hss Hc' Ha' Hp Hps.
  apply well_owned_parts in Hw. destruct Hw as [H1 [H2 [H3 [H4 H5]]]].
  apply well_owned_parts. rewrite Hss, Hc', Ha', Hp, Hps.
  rewrite length_app, update_length. simpl.
  repeat split; try assumption.
  - intros k x Hk. rewrite orb_false_r.
    destruct (Nat.eqb_spec k (S (length (socks st)))) as [E|E]; [reflexivity|].
    simpl.
    destruct (Nat.lt_ge_cases k (length (socks st))) as [Hlt|Hge].
    + rewrite nth_error_app1 in Hk by now rewrite update_length.
      rewrite nth_error_update in Hk.
      destruct (Nat.eqb_spec k c) as [Ekc|Ekc].
      * destruct (nth_error (socks st) k); [|discriminate].
        injection Hk as <-. reflexivity.
      * specialize (H2 k x Hk). rewrite Hc, Ha in H2. simpl in H2.
        apply Nat.eqb_neq in Ekc. now rewrite Ekc in H2.
    + rewrite nth_error_app2 in Hk by now rewrite update_length.
      rewrite update_length in Hk.
      destruct (k - length (socks st))%nat as [|[|d]] eqn:Ed; simpl in Hk.
      * injection Hk as <-. reflexivity.
      * lia.
      * destruct d; discriminate.
  - apply Nat.ltb_lt. lia.
Qed.

Section Loop.
Variable denoise_vector : vec -> vec.

Lemma in_loop_handles (st : State) :
  in_loop st = true ->
  exists p c, proc st = Some p /\ conn st = Some c /\ accepting st = None.
Proof.
  unfold in_loop. destruct (proc st) as [p|], (conn st) as [c|],
    (accepting st); try discriminate. intros _. now exists p, c.
Qed.

(** A round is the drain followed by the read-denoise-send part, run in
    a state that still has both handles. *)
Lemma iteration_drain_first (st : State) (raw : list byte) (fail : option exn) :
  in_loop st = true ->
  exists st1 evs p c,
    check_frequency_change st = Ok tt st1 /\
    trace st1 = trace st ++ evs /\
    sent evs = [] /\
    proc st1 = Some p /\ conn st1 = Some c /\ conn st = Some c /\
    accepting st1 = None /\
    (well_owned st = true -> well_owned st1 = true) /\
    iteration denoise_vector raw fail st
      = read_denoise_send denoise_vector raw fail st1 /\
    listens evs = [] /\ accepts evs = [].
Proof.
  intros Hl. destruct (in_loop_handles st Hl) as [p [c [Hp [Hc Ha]]]].
  destruct (check_frequency_change_spec st p Hp)
    as [st1 [evs [Hr [Ht [_ [Hn [_ [_ [[p' Hp'] [[Hc1 [Ha1 _]] [Hw [Hli Hac]]]]]]]]]]]].
  exists st1, evs, p', c. repeat split; try assumption; try congruence.
  unfold iteration, bind. now rewrite Hr.
Qed.

(** What a round leaves behind, whatever happens in it. *)
Lemma iteration_outcome_spec (st : State) (raw : list byte) (fail : option exn) :
  in_loop st = true ->
  let r := iteration denoise_vector raw fail st in
  in_loop (state_of r) = true /\
  (exists evs, trace (state_of r) = trace st ++ evs /\
               sent evs = if full_read raw
                          then [payload_of denoise_vector raw] else []) /\
  (well_owned st = true -> well_owned (state_of r) = true) /\
  (forall e st', r = Raise e st' ->
     fail = Some e /\ is_disconnect e = false /\ full_read raw = true).
Proof.
  intros Hl r.
  destruct (iteration_drain_first st raw fail Hl)
    as [st1 [evs [p [c [Hr [Ht [Hn [Hp [Hc [_ [Ha [Hw [Hi _]]]]]]]]]]]]].
  subst r. rewrite Hi. unfold full_read.
  destruct (Nat.ltb_spec (length raw) (CHUNK_SIZE * 2)) as [Hs|Hs]; cbn [negb].
  - rewrite (read_short denoise_vector st1 p raw fail Hp Hs). cbn [state_of].
    split; [|split; [|split]].
    + unfold in_loop. cbn. now rewrite Hp, Hc, Ha.
    + eexists. split; [cbn; rewrite Ht, <- app_assoc; reflexivity|].
      now rewrite sent_app, Hn.
    + exact Hw.
    + discriminate.
  - destruct fail as [e|].
    + destruct (is_disconnect e) eqn:He.
      * destruct (read_full_disconnected denoise_vector st1 p c raw e Hp Hc Hs He)
          as [st' [Hr' [Ht' [Hss [Hc' [Ha' [Hp' [Hps [_ [_ _]]]]]]]]]].
        rewrite Hr'. cbn [state_of]. split; [|split; [|split]].
        -- unfold in_loop. now rewrite Hp', Hp, Hc', Ha'.
        -- eexists. split; [rewrite Ht', Ht, <- app_assoc; reflexivity|].
           now rewrite sent_app, Hn.
        -- intros Hwo.
           apply (well_owned_after_reconnect st1 st' c); auto.
        -- discriminate.
      * rewrite (read_full_uncaught denoise_vector st1 p c raw e Hp Hc Hs He).
        cbn [state_of]. split; [|split; [|split]].
        -- unfold in_loop. cbn. now rewrite Hp, Hc, Ha.
        -- eexists. split; [cbn; rewrite Ht, <- !app_assoc; reflexivity|].
           now rewrite sent_app, Hn.
        -- exact Hw.
        -- intros e' st' [= <- _]. now repeat split.
    + rewrite (read_full_sent denoise_vector st1 p c raw Hp Hc Hs).
      cbn [state_of]. split; [|split; [|split]].
      * unfold in_loop. cbn. now rewrite Hp, Hc, Ha.
      * eexists. split; [cbn; rewrite Ht, <- !app_assoc; reflexivity|].
        now rewrite sent_app, Hn.
      * exact Hw.
      * discriminate.
Qed.

(** Over any number of rounds: every full chunk read is handed to
    [sendall] exactly once, in order, and nothing else ever is.  A round
    whose send raises something other than a disconnect ends the run. *)
Lemma run_sent (ticks : list tick) :
  forall st,
    in_loop st = true ->
    let r := run denoise_vector ticks st in
    in_loop (state_of r) = true /\
    (well_owned st = true -> well_owned (state_of r) = true) /\
    exists k evs,
      (k <= length ticks)%nat /\
      trace (state_of r) = trace st ++ evs /\
      sent evs = map (payload_of denoise_vector)
                     (filter full_read (map raw_read (firstn k ticks))) /\
      (forall st', r = Ok tt st' -> k = length ticks).
Proof.
  induction ticks as [|t rest IH]; intros st Hl r.
  - subst r. cbn. split; [exact Hl|]. split; [tauto|].
    exists 0%nat, []. rewrite app_nil_r. repeat split. lia.
  - set (st0 := set_freq_queue (freq_queue st ++ arrivals t) st).
    assert (Hrun : r = match iteration denoise_vector (raw_read t)
                               (send_failure_of t) st0 with
                       | Ok _ st1 => run denoise_vector rest st1
                       | Raise e st1 => Raise e st1
                       end) by reflexivity.
    rewrite Hrun. clear Hrun r.
    assert (Hl0 : in_loop st0 = true) by exact Hl.
    destruct (iteration_outcome_spec st0 (raw_read t) (send_failure_of t) Hl0)
      as [Hl1 [[evs1 [Ht1 Hs1]] [Hw1 Hraise]]].
    destruct (iteration denoise_vector (raw_read t) (send_failure_of t) st0)
      as [[] st1|e st1] eqn:Er; cbn [state_of] in *.
    + destruct (IH st1 Hl1) as [Hl2 [Hw2 [k [evs [Hk [Ht [Hs Hok]]]]]]].
      split; [exact Hl2|]. split; [intros Hw; apply Hw2, Hw1, Hw|].
      exists (S k), (evs1 ++ evs). repeat split.
      * simpl. lia.
      * rewrite Ht, Ht1, <- app_assoc. reflexivity.
      * rewrite sent_app, Hs1, Hs. cbn [firstn map filter].
        destruct (full_read (raw_read t)); reflexivity.
      * intros st' Hr. simpl. f_equal. eapply Hok. exact Hr.
    + destruct (Hraise e st1 eq_refl) as [_ [_ Hfull]].
      split; [exact Hl1|]. split; [exact Hw1|].
      exists 1%nat, evs1. repeat split.
      * simpl. lia.
      * exact Ht1.
      * rewrite Hs1. cbn [firstn map filter]. now rewrite Hfull.
      * discriminate.
Qed.
End Loop.

(** ** Delivery: reconnect and short reads *)

Section Delivery.
Variable denoise_vector : vec -> vec.

(** C2. A send that fails with a broken pipe or a connection reset does
    not leave the round: the connection is closed, exactly one listen and
    one accept follow, and the loop goes on with the new connection.  The
    chunk whose send failed is handed to [sendall] that once only: in any
    continuation of the run the payloads sent are those of the full chunks
    read afterwards, one send per chunk, in order. *)
Theorem send_failure_reconnects_once (st : State) (raw : list byte) (e : exn) :
  in_loop st = true ->
  well_owned st = true ->
  (CHUNK_SIZE * 2 <= length raw)%nat ->
  e = BrokenPipeError \/ e = ConnectionResetError ->
  exists st1 st' p c s c',
    check_frequency_change st = Ok tt st1 /\
    iteration denoise_vector raw (Some e) st = Ok tt st' /\
    conn st = Some c /\
    emitted st1 st'
      = [Read p (length raw);
         SendAll c (payload_of denoise_vector raw) (Some e);
         Print MsgDisconnected; CloseSock c;
         Listen s PORT; Print (MsgWaiting PORT);
         Accept s c'; Print MsgConnected] /\
    listens (emitted st st') = [s] /\
    accepts (emitted st st') = [c'] /\
    nth_error (socks st') c = Some Closed /\
    conn st' = Some c' /\ c' <> c /\
    nth_error (socks st') c' = Some Connected /\
    in_loop st' = true /\
    forall ticks : list tick,
      exists k evs,
        (k <= length ticks)%nat /\
        trace (state_of (run denoise_vector ticks st')) = trace st' ++ evs /\
        sent evs = map (payload_of denoise_vector)
                       (filter full_read (map raw_read (firstn k ticks))) /\
        (forall st'', run denoise_vector ticks st' = Ok tt st'' ->
                      k = length ticks).
Proof.
  intros Hl Hw Hs He.
  assert (Hd : is_disconnect e = true) by (destruct He; subst; reflexivity).
  destruct (iteration_drain_first denoise_vector st raw (Some e) Hl)
    as [st1 [evs [p [c [Hr [Ht [Hn [Hp [Hc [Hc0 [Ha [Hw1 [Hi [Hli Hac]]]]]]]]]]]]]].
  destruct (read_full_disconnected denoise_vector st1 p c raw e Hp Hc Hs Hd)
    as [st' [Hr' [Ht' [Hss [Hc' [Ha' [Hp' [Hps _]]]]]]]].
  specialize (Hw1 Hw).
  assert (Hlt : (c < length (socks st1))%nat).
  { apply well_owned_parts in Hw1. destruct Hw1 as [_ [_ [_ [H4 _]]]].
    rewrite Hc in H4. now apply Nat.ltb_lt in H4. }
  assert (Hl' : in_loop st' = true).
  { unfold in_loop. now rewrite Hp', Hp, Hc', Ha'. }
  exists st1, st', p, c, (length (socks st1)), (S (length (socks st1))).
  split; [exact Hr|]. split; [now rewrite Hi|]. split; [exact Hc0|].
  split; [exact (emitted_app st1 st' _ Ht')|].
  assert (Hall : emitted st st' = evs ++ emitted st1 st').
  { rewrite (emitted_app st1 st' _ Ht').
    apply emitted_app. rewrite Ht', Ht, <- app_assoc. reflexivity. }
  rewrite Hall, (emitted_app st1 st' _ Ht').
  split; [rewrite listens_app, Hli; reflexivity|].
  split; [rewrite accepts_app, Hac; reflexivity|].
  split.
  { rewrite Hss, nth_error_app1 by now rewrite update_length.
    rewrite nth_error_update, Nat.eqb_refl.
    destruct (nth_error (socks st1) c) eqn:E; [reflexivity|].
    apply nth_error_None in E. lia. }
  split; [exact Hc'|]. split; [lia|].
  split.
  { rewrite Hss, nth_error_app2 by (rewrite update_length; lia).
    rewrite update_length.
    replace (S (length (socks st1)) - length (socks st1))%nat with 1%nat by lia.
    reflexivity. }
  split; [exact Hl'|].
  intros ticks.
  destruct (run_sent denoise_vector ticks st' Hl') as [_ [_ H]]. exact H.
Qed.

(** C6. A read shorter than a chunk ends the round after the read: nothing
    is framed, denoised or sent, nothing is raised, and the loop is ready
    for the next round.  The bytes of the short read are dropped: the next
    full chunk is sent as the payload of its own bytes alone. *)
Theorem short_read_skips_round (st : State) (raw : list byte) (fail : option exn) :
  in_loop st = true ->
  (length raw < CHUNK_SIZE * 2)%nat ->
  exists st1 p,
    check_frequency_change st = Ok tt st1 /\
    iteration denoise_vector raw fail st
      = Ok tt (log (Read p (length raw)) st1) /\
    emitted st1 (log (Read p (length raw)) st1) = [Read p (length raw)] /\
    sent (emitted st (log (Read p (length raw)) st1)) = [] /\
    in_loop (log (Read p (length raw)) st1) = true /\
    forall (raw2 : list byte) (fail2 : option exn),
      (CHUNK_SIZE * 2 <= length raw2)%nat ->
      exists evs,
        trace (state_of (iteration denoise_vector raw2 fail2
                           (log (Read p (length raw)) st1)))
          = trace (log (Read p (length raw)) st1) ++ evs /\
        sent evs = [payload_of denoise_vector raw2].
Proof.
  intros Hl Hs.
  destruct (iteration_drain_first denoise_vector st raw fail Hl)
    as [st1 [evs [p [c [Hr [Ht [Hn [Hp [Hc [Hc0 [Ha [Hw1 [Hi [Hli Hac]]]]]]]]]]]]]].
  assert (Hl' : in_loop (log (Read p (length raw)) st1) = true).
  { unfold in_loop. cbn. now rewrite Hp, Hc, Ha. }
  exists st1, p. split; [exact Hr|].
  split; [rewrite Hi; now apply read_short|].
  split; [now apply emitted_app|].
  split.
  { erewrite emitted_app by (cbn; rewrite Ht, <- app_assoc; reflexivity).
    now rewrite sent_app, Hn. }
  split; [exact Hl'|].
  intros raw2 fail2 Hfull.
  destruct (iteration_outcome_spec denoise_vector _ raw2 fail2 Hl')
    as [_ [[evs2 [Ht2 Hs2]] _]].
  exists evs2. split; [exact Ht2|].
  rewrite Hs2. unfold full_read.
  apply Nat.ltb_ge in Hfull. now rewrite Hfull.
Qed.
End Delivery.

Lemma full_chunk_length : (CHUNK_SIZE * 2 <= length full_chunk)%nat.
Proof. unfold full_chunk. rewrite repeat_length. apply le_n. Qed.

Lemma send_failure_reconnects_once_witness :
  in_loop st_running = true /\
  well_owned st_running = true /\
  (CHUNK_SIZE * 2 <= length full_chunk)%nat /\
  exists st1 st' p c s c',
    check_frequency_change st_running = Ok tt st1 /\
    iteration reference_denoiser full_chunk (Some BrokenPipeError) st_running
      = Ok tt st' /\
    conn st_running = Some c /\
    emitted st1 st'
      = [Read p (length full_chunk);
         SendAll c (payload_of reference_denoiser full_chunk)
                 (Some BrokenPipeError);
         Print MsgDisconnected; CloseSock c;
         Listen s PORT; Print (MsgWaiting PORT);
         Accept s c'; Print MsgConnected] /\
    listens (emitted st_running st') = [s] /\
    accepts (emitted st_running st') = [c'] /\
    nth_error (socks st') c = Some Closed /\
    conn st' = Some c' /\ c' <> c /\
    nth_error (socks st') c' = Some Connected /\
    in_loop st' = true /\
    forall ticks : list tick,
      exists k evs,
        (k <= length ticks)%nat /\
        trace (state_of (run reference_denoiser ticks st')) = trace st' ++ evs /\
        sent evs = map (payload_of reference_denoiser)
                       (filter full_read (map raw_read (firstn k ticks))) /\
        (forall st'', run reference_denoiser ticks st' = Ok tt st'' ->
                      k = length ticks).
Proof.
  split; [reflexivity|]. split; [reflexivity|].
  split; [exact full_chunk_length|].
  apply (send_failure_reconnects_once reference_denoiser st_running full_chunk
           BrokenPipeError);
    [reflexivity | reflexivity | exact full_chunk_length | now left].
Defined.

Lemma short_read_skips_round_witness :
  in_loop st_running = true /\
  (length [Byte.x7f; Byte.x80] < CHUNK_SIZE * 2)%nat /\
  exists st1 p,
    check_frequency_change st_running = Ok tt st1 /\
    iteration reference_denoiser [Byte.x7f; Byte.x80] None st_running
      = Ok tt (log (Read p 2) st1).
Proof.
  assert (H : (length [Byte.x7f; Byte.x80] < CHUNK_SIZE * 2)%nat)
    by (apply Nat.ltb_lt; vm_compute; reflexivity).
  split; [reflexivity|]. split; [exact H|].
  destruct (short_read_skips_round reference_denoiser st_running
              [Byte.x7f; Byte.x80] None eq_refl H) as [st1 [p [H1 [H2 _]]]].
  exists st1, p. split; [exact H1 | exact H2].
Defined.

(** ** Operator input *)

Lemma rstrip_all_space (s : string) : all_space (rstrip s) = all_space s.
Proof.
  induction s as [|c t IH]; [reflexivity|].
  cbn [rstrip all_space].
  destruct (is_space c) eqn:Ec; cbn [andb].
  - destruct (rstrip t) as [|d u] eqn:Er; cbn [is_empty].
    + rewrite <- IH. reflexivity.
    + cbn [all_space]. rewrite Ec. exact IH.
  - cbn [all_space]. now rewrite Ec.
Qed.

Lemma lstrip_empty (s : string) : is_empty (lstrip s) = all_space s.
Proof.
  induction s as [|c t IH]; [reflexivity|].
  cbn [lstrip all_space]. destruct (is_space c) eqn:Ec; [exact IH | reflexivity].
Qed.

Lemma strip_empty (s : string) : is_empty (strip s) = all_space s.
Proof. unfold strip. now rewrite lstrip_empty, rstrip_all_space. Qed.

(** [int] of a float is the truncation toward zero of its exact value. *)
Lemma py_int_truncates (x : spec_float) (z : Z) :
  py_int x = inr z -> z = Qtrunc (SF2Q x).
Proof.
  destruct x as [s|s| |s m e]; cbn [py_int]; try discriminate.
  - intros [= <-]. reflexivity.
  - intros [= <-]. unfold SF2Q, Qtrunc.
    destruct (Z.leb_spec 0 e) as [He|He]; cbn [Qnum Qden inject_Z].
    + rewrite Z.quot_1_r. unfold cond_Zopp.
      destruct s; [symmetry; apply Z.mul_opp_l | reflexivity].
    + assert (Hp : 0 < 2 ^ (- e)) by (apply Z.pow_pos_nonneg; lia).
      rewrite Z2Pos.id by exact Hp.
      rewrite Z.shiftr_div_pow2 by lia.
      destruct s; cbn [cond_Zopp].
      * change (Z.neg m) with (- Z.pos m).
        rewrite Z.quot_opp_l by lia. f_equal.
        symmetry. apply Z.quot_div_nonneg; lia.
      * symmetry. apply Z.quot_div_nonneg; lia.
Qed.

(** C10. One line of operator input: a line of whitespace only (or empty)
    is dropped without a message and queues nothing; any other line is
    handed stripped to [float], and when that and [int] succeed the value
    queued is the truncation toward zero of the binary64 product
    [float(s) * 1e6]; when either raises, the error is reported and nothing
    is queued. *)
Theorem frequency_input_cases (py_float : string -> option spec_float)
    (line : string) (st : State) :
  (all_space line = true ->
   frequency_input_body py_float line st = Ok tt st) /\
  (forall f hz,
     all_space line = false ->
     py_float (strip line) = Some f ->
     py_int (F64.mul f c1e6) = inr hz ->
     hz = Qtrunc (SF2Q (F64.mul f c1e6)) /\
     frequency_input_body py_float line st
       = Ok tt (set_freq_queue (freq_queue st ++ [hz]) st)) /\
  (forall e,
     all_space line = false ->
     (py_float (strip line) = None /\ e = ValueError) \/
     (exists f, py_float (strip line) = Some f /\
                py_int (F64.mul f c1e6) = inl e) ->
     frequency_input_body py_float line st
       = Ok tt (log (Print (MsgInvalid e)) st)).
Proof.
  unfold frequency_input_body, try_except, parse_and_put.
  rewrite strip_empty.
  split; [|split].
  - intros ->. reflexivity.
  - intros f hz -> Hf Hi. split; [now apply py_int_truncates|].
    rewrite Hf, Hi. reflexivity.
  - intros e -> [[Hf ->]|[f [Hf Hi]]].
    + rewrite Hf. reflexivity.
    + rewrite Hf, Hi. reflexivity.
Qed.

Local Open Scope string_scope.

Lemma frequency_input_cases_witness :
  all_space "  	 " = true /\
  frequency_input_body float_of_decimal "  	 " st_running = Ok tt st_running /\
  all_space " 100.0000007 " = false /\
  frequency_input_body float_of_decimal " 100.0000007 " st_running
    = Ok tt (set_freq_queue (freq_queue st_running ++ [100000000]) st_running) /\
  frequency_input_body float_of_decimal "12O.5" st_running
    = Ok tt (log (Print (MsgInvalid ValueError)) st_running).
Proof.
  pose proof (frequency_input_cases float_of_decimal "  	 " st_running) as [Ha _].
  pose proof (frequency_input_cases float_of_decimal " 100.0000007 " st_running)
    as [_ [Hb _]].
  pose proof (frequency_input_cases float_of_decimal "12O.5" st_running)
    as [_ [_ Hc]].
  split; [reflexivity|]. split; [apply Ha; reflexivity|].
  split; [reflexivity|]. split.
  - apply (Hb (S754_finite false 7036874467024521 (-46)) 100000000);
      reflexivity.
  - apply Hc; [reflexivity | left; split; reflexivity].
Defined.

(** The conversion truncates: 100.0000007 MHz is queued as 100000000 Hz
    (the product is 100000000.7 to within a rounding), and -0.0000015 MHz as
    -1 Hz, toward zero and not toward the nearest or the lower integer. *)
Example truncation_not_rounding :
  map (fun s => freq_queue (state_of
                  (frequency_input_body float_of_decimal s initial_state)))
      ["100.0000007"; "-0.0000015"; "145.800"; "102.3"]
  = [[100000000]; [-1]; [145800000]; [102300000]].
Proof. vm_compute. reflexivity. Qed.

(** ** Ownership holds along the whole run *)

(** Between any two rounds of the loop, and in the state in which an
    uncaught send error leaves it, both handles are set and the tables are
    owned; the statements about restarts and shutdown therefore apply at
    every round. *)
Lemma processing_loop_owned (denoise_vector : vec -> vec) (ticks : list tick) :
  let r := iq_processing_loop denoise_vector ticks initial_state in
  in_loop (state_of r) = true /\ well_owned (state_of r) = true.
Proof.
  intros r.
  assert (Hr : r = run denoise_vector ticks st_running) by reflexivity.
  rewrite Hr.
  destruct (run_sent denoise_vector ticks st_running eq_refl) as [Hl [Hw _]].
  split; [exact Hl | apply Hw; reflexivity].
Qed.

(** A listener waiting in [accept], at start-up or during a reconnect, is
    owned through [accepting]. *)
Lemma tcp_listen_owned (st : State) (port : Z) :
  well_owned st = true ->
  accepting st = None ->
  well_owned (state_of (tcp_listen port st)) = true /\
  accepting (state_of (tcp_listen port st)) = Some (length (socks st)).
Proof.
  intros Hw Ha. split; [|reflexivity].
  apply well_owned_parts in Hw. destruct Hw as [H1 [H2 [H3 [H4 H5]]]].
  apply well_owned_parts. cbn. rewrite length_app. cbn.
  repeat split; try assumption.
  - intros k x Hk.
    destruct (Nat.eqb_spec k (length (socks st))) as [E|E];
      [apply orb_true_iff; left; apply orb_true_r|].
    rewrite orb_false_r.
    assert (Hlt : (k < length (socks st))%nat).
    { assert (Hs : (k < length (socks st ++ [Listening]))%nat)
        by (apply nth_error_Some; congruence).
      rewrite length_app in Hs. simpl in Hs. lia. }
    rewrite nth_error_app1 in Hk by exact Hlt.
    specialize (H2 k x Hk). rewrite Ha in H2. simpl in H2.
    now rewrite orb_false_r in H2.
  - destruct (conn st) as [c|]; [|reflexivity]. simpl in *.
    apply Nat.ltb_lt in H4. apply Nat.ltb_lt. lia.
  - apply Nat.ltb_lt. lia.
Qed.

(** * Further properties of the script *)

Local Close Scope string_scope.

(** ** The operator thread *)

Lemma lstrip_idem (s : string) : lstrip (lstrip s) = lstrip s.
Proof.
  induction s as [|c t IH]; [reflexivity|].
  cbn [lstrip]. destruct (is_space c) eqn:Ec; [exact IH|].
  cbn [lstrip]. now rewrite Ec.
Qed.

Lemma rstrip_idem (s : string) : rstrip (rstrip s) = rstrip s.
Proof.
  induction s as [|c t IH]; [reflexivity|].
  cbn [rstrip].
  destruct (is_space c && is_empty (rstrip t)) eqn:E; [reflexivity|].
  cbn [rstrip]. rewrite IH, E. reflexivity.
Qed.

Lemma rstrip_lstrip (s : string) : rstrip (lstrip s) = lstrip (rstrip s).
Proof.
  induction s as [|c t IH]; [reflexivity|].
  cbn [lstrip rstrip]. destruct (is_space c) eqn:Ec; cbn [andb].
  - rewrite IH. destruct (rstrip t) as [|d u] eqn:Er; cbn [is_empty].
    + reflexivity.
    + cbn [lstrip]. now rewrite Ec.
  - cbn [rstrip lstrip]. rewrite Ec. reflexivity.
Qed.

Lemma strip_idem (s : string) : strip (strip s) = strip s.
Proof.
  unfold strip.
  rewrite (rstrip_lstrip (rstrip s)), rstrip_idem, lstrip_idem. reflexivity.
Qed.

(** X1. Whitespace around the operator's entry does not matter: a line and
    its stripped form have the same effect, whatever [float] accepts. *)
Theorem input_ignores_surrounding_space
    (py_float : string -> option spec_float) (line : string) (st : State) :
  frequency_input_body py_float line st
  = frequency_input_body py_float (strip line) st.
Proof.
  unfold frequency_input_body. rewrite strip_idem. reflexivity.
Qed.

(** X2. No line makes the input loop raise, and a round of it does one of
    three things only: nothing, queue one frequency, or print one error.
    In particular it never changes [current_freq] (declared [global] in the
    function but never assigned), the capture process or the connection. *)
Theorem input_round_never_fatal
    (py_float : string -> option spec_float) (line : string) (st : State) :
  exists st',
    frequency_input_body py_float line st = Ok tt st' /\
    queued_or_reported st st' /\
    current_freq st' = current_freq st /\
    proc st' = proc st /\ conn st' = conn st /\
    procs st' = procs st /\ socks st' = socks st /\
    terminate_flag st' = terminate_flag st.
Proof.
  unfold frequency_input_body, try_except, parse_and_put, queued_or_reported.
  destruct (is_empty (strip line)).
  - exists st. repeat split. now left.
  - destruct (py_float (strip line)) as [f|].
    + destruct (py_int (F64.mul f c1e6)) as [e|hz].
      * eexists. split; [reflexivity|]. repeat split. right. right. now exists e.
      * eexists. split; [reflexivity|]. repeat split. right. left. now exists hz.
    + eexists. split; [reflexivity|]. repeat split.
      right. right. now exists ValueError.
Qed.

(** ** The drain *)

Lemma drain_loop_same (n : nat) :
  forall st,
    Forall (fun f => f = current_freq st) (freq_queue st) ->
    (length (freq_queue st) <= n)%nat ->
    drain_loop n st = Ok tt (set_freq_queue [] st).
Proof.
  induction n as [|n IH]; intros st Hall Hlen.
  - destruct st as [cf pr cn ac q tf ps ss tr]. cbn in *.
    destruct q; [reflexivity | simpl in Hlen; lia].
  - cbn [drain_loop]. unfold bind at 1, gets at 1.
    destruct (freq_queue st) as [|f rest] eqn:Hq.
    + destruct st as [cf pr cn ac q tf ps ss tr]. cbn in *. now subst q.
    + inversion Hall as [|f' rest' Hf Hrest]; subst f' rest'.
      unfold bind at 1, modify at 1. unfold bind at 1.
      rewrite Hf.
      change (current_freq st) with (current_freq (set_freq_queue rest st)) at 1.
      rewrite apply_frequency_same.
      rewrite IH; [reflexivity | exact Hrest | simpl in Hlen; cbn; lia].
Qed.

(** X3. Requests for the frequency already in use are dropped without
    touching the capture process: when every queued value equals the current
    frequency the drain only empties the queue: no kill, no restart, no
    output. *)
Theorem drain_same_frequency_is_noop (st : State) :
  Forall (fun f => f = current_freq st) (freq_queue st) ->
  check_frequency_change st = Ok tt (set_freq_queue [] st).
Proof.
  intros H. unfold check_frequency_change, try_except, bind, gets.
  rewrite (drain_loop_same _ st H (le_n _)). reflexivity.
Qed.

Lemma drain_same_frequency_is_noop_witness :
  Forall (fun f => f = current_freq st_same_pending)
         (freq_queue st_same_pending) /\
  check_frequency_change st_same_pending
  = Ok tt (set_freq_queue [] st_same_pending).
Proof.
  assert (H : Forall (fun f => f = current_freq st_same_pending)
                (freq_queue st_same_pending)) by (repeat constructor).
  split; [exact H|].
  exact (drain_same_frequency_is_noop st_same_pending H).
Defined.

(** ** One capture process, one connection, all along the run *)

Lemma unreaped_after_app (t1 t2 : list event) :
  forall live,
    unreaped_after (t1 ++ t2) live = unreaped_after t2 (unreaped_after t1 live).
Proof.
  induction t1 as [|e t IH]; intros live; [reflexivity|].
  destruct e; simpl; apply IH.
Qed.

Lemma one_at_a_time_app (live : list nat) (t1 t2 : list event) :
  one_at_a_time live t1 ->
  one_at_a_time (unreaped_after t1 live) t2 ->
  one_at_a_time live (t1 ++ t2).
Proof.
  intros H1 H2 k. rewrite firstn_app, unreaped_after_app.
  destruct (Nat.le_gt_cases k (length t1)) as [Hk|Hk].
  - replace (k - length t1)%nat with 0%nat by lia. simpl. apply H1.
  - assert (E : firstn k t1 = t1) by (apply firstn_all2; lia).
    rewrite E. apply H2.
Qed.

Lemma quiet_unreaped (t : list event) :
  forallb no_proc_event t = true ->
  forall live, unreaped_after t live = live.
Proof.
  induction t as [|e t IH]; intros H live; [reflexivity|].
  simpl in H. apply andb_true_iff in H. destruct H as [He Ht].
  destruct e; try discriminate He; simpl; now apply IH.
Qed.

Lemma quiet_firstn (t : list event) :
  forallb no_proc_event t = true ->
  forall k, forallb no_proc_event (firstn k t) = true.
Proof.
  induction t as [|e t IH]; intros H [|k]; try reflexivity.
  simpl in H. apply andb_true_iff in H. destruct H as [He Ht].
  simpl. now rewrite He, IH.
Qed.

Lemma quiet_one_at_a_time (live : list nat) (t : list event) :
  forallb no_proc_event t = true ->
  (length live <= 1)%nat ->
  one_at_a_time live t.
Proof.
  intros H Hl k. now rewrite quiet_unreaped by now apply quiet_firstn.
Qed.

(** The five events of a restart, replayed from the old process alone. *)
Lemma restart_events_one_at_a_time (p p' : nat) (f : Z) :
  let evs := [Print (MsgChanging f); Kill p; Wait p;
              Print (MsgStarting f); Spawn p' f] in
  one_at_a_time [p] evs /\ unreaped_after evs [p] = [p'].
Proof.
  split.
  - intros k.
    do 5 (destruct k as [|k];
          [simpl; try destruct (Nat.eq_dec p p); try contradiction; simpl; lia|]).
    simpl. rewrite firstn_nil. simpl.
    destruct (Nat.eq_dec p p); [simpl; lia | contradiction].
  - simpl. destruct (Nat.eq_dec p p); [reflexivity | contradiction].
Qed.

Lemma tuned_unreaped (st : State) :
  well_owned st = true -> tuned st ->
  exists p, proc st = Some p /\ unreaped st = [p].
Proof.
  intros Hw [p [Hp Hn]]. exists p. split; [exact Hp|].
  destruct (unreaped_of_owned st p Hw Hp) as [E|E]; [|exact E].
  exfalso.
  pose proof (unreaped_from_In (procs st) 0 p _ Hn eq_refl) as Hin.
  unfold unreaped in E. rewrite E in Hin. exact Hin.
Qed.

Lemma drain_loop_procs (n : nat) :
  forall st,
    well_owned st = true -> tuned st ->
    (length (freq_queue st) <= n)%nat ->
    exists st' evs,
      drain_loop n st = Ok tt st' /\
      trace st' = trace st ++ evs /\
      well_owned st' = true /\ tuned st' /\
      one_at_a_time (unreaped st) evs /\
      unreaped_after evs (unreaped st) = unreaped st'.
Proof.
  induction n as [|n IH]; intros st Hw Ht Hlen.
  - exists st, []. cbn. rewrite app_nil_r. repeat split; try assumption.
    intros k. rewrite firstn_nil. simpl.
    destruct (tuned_unreaped st Hw Ht) as [p [_ ->]]. simpl. lia.
  - cbn [drain_loop]. unfold bind at 1, gets at 1.
    destruct (freq_queue st) as [|f rest] eqn:Hq.
    + exists st, []. cbn. rewrite app_nil_r. repeat split; try assumption.
      intros k. rewrite firstn_nil. simpl.
      destruct (tuned_unreaped st Hw Ht) as [p [_ ->]]. simpl. lia.
    + set (st1 := set_freq_queue rest st).
      assert (Hw1 : well_owned st1 = true) by exact Hw.
      assert (Ht1 : tuned st1) by exact Ht.
      assert (Hlen1 : (length (freq_queue st1) <= n)%nat)
        by (cbn; simpl in Hlen; lia).
      unfold bind at 1, modify at 1. fold st1. unfold bind at 1.
      destruct (Z.eqb_spec f (current_freq st1)) as [->|Hne].
      * rewrite apply_frequency_same. exact (IH st1 Hw1 Ht1 Hlen1).
      * destruct (tuned_unreaped st1 Hw1 Ht1) as [p [Hp Hu]].
        destruct (apply_frequency_changed st1 p f Hp Hne)
          as [st2 [Hr2 [Ht2 [Hps2 [Hpr2 [Hcf2 [Hc2 [Ha2 [Hs2 [Hq2 Hf2]]]]]]]]]].
        rewrite Hr2.
        assert (Hw2 : well_owned st2 = true).
        { apply (well_owned_after_restart st1 st2 p f); try assumption.
          repeat split; assumption. }
        assert (Hlt : (p < length (procs st1))%nat).
        { apply well_owned_parts in Hw1. destruct Hw1 as [_ [_ [H3 _]]].
          rewrite Hp in H3. now apply Nat.ltb_lt in H3. }
        assert (Htu2 : tuned st2).
        { exists (length (procs st1)). split; [exact Hpr2|].
          rewrite Hps2, nth_error_app2 by (rewrite update_length; lia).
          rewrite update_length, Nat.sub_diag, Hcf2. reflexivity. }
        assert (Hlen2 : (length (freq_queue st2) <= n)%nat) by now rewrite Hq2.
        destruct (IH st2 Hw2 Htu2 Hlen2)
          as [st' [evs [Hr [Ht' [Hw' [Htu' [Ho Hun]]]]]]].
        destruct (tuned_unreaped st2 Hw2 Htu2) as [p2 [Hp2 Hu2]].
        assert (p2 = length (procs st1)) by congruence. subst p2.
        destruct (restart_events_one_at_a_time p (length (procs st1)) f)
          as [Ho1 Hu1].
        exists st'. eexists. split; [exact Hr|].
        split; [rewrite Ht', Ht2, <- app_assoc; reflexivity|].
        split; [exact Hw'|]. split; [exact Htu'|].
        change (unreaped st) with (unreaped st1). rewrite Hu.
        split.
        -- apply one_at_a_time_app; [exact Ho1|].
           rewrite Hu1, <- Hu2. exact Ho.
        -- rewrite unreaped_after_app, Hu1, <- Hu2. exact Hun.
Qed.

Section RunInvariants.
Variable denoise_vector : vec -> vec.

Lemma read_denoise_send_frame (st : State) (p c : nat) (raw : list byte)
    (fail : option exn) :
  proc st = Some p -> conn st = Some c ->
  nth_error (socks st) c = Some Connected ->
  let r := read_denoise_send denoise_vector raw fail st in
  exists evs,
    trace (state_of r) = trace st ++ evs /\
    forallb no_proc_event evs = true /\
    procs (state_of r) = procs st /\
    proc (state_of r) = proc st /\
    current_freq (state_of r) = current_freq st /\
    connected (state_of r).
Proof.
  intros Hp Hc Hn r. subst r.
  assert (Hcon : connected st) by (exists c; now split).
  destruct (Nat.ltb_spec (length raw) (CHUNK_SIZE * 2)) as [Hs|Hs].
  - rewrite (read_short denoise_vector st p raw fail Hp Hs).
    eexists. split; [reflexivity|]. repeat split. exact Hcon.
  - destruct fail as [e|].
    + destruct (is_disconnect e) eqn:He.
      * destruct (read_full_disconnected denoise_vector st p c raw e Hp Hc Hs He)
          as [st' [Hr [Ht [Hss [Hc' [Ha' [Hp' [Hps [Hcf _]]]]]]]]].
        rewrite Hr. cbn [state_of].
        eexists. split; [exact Ht|]. repeat split; try assumption.
        exists (S (length (socks st))). split; [exact Hc'|].
        rewrite Hss, nth_error_app2 by (rewrite update_length; lia).
        rewrite update_length.
        replace (S (length (socks st)) - length (socks st))%nat with 1%nat by lia.
        reflexivity.
      * rewrite (read_full_uncaught denoise_vector st p c raw e Hp Hc Hs He).
        eexists. split; [cbn; rewrite <- app_assoc; reflexivity|].
        repeat split. exact Hcon.
    + rewrite (read_full_sent denoise_vector st p c raw Hp Hc Hs).
      eexists. split; [cbn; rewrite <- app_assoc; reflexivity|].
      repeat split. exact Hcon.
Qed.

(** What every round keeps, whatever is read and whatever the send does. *)
Lemma iteration_invariants (st : State) (raw : list byte) (fail : option exn) :
  in_loop st = true -> well_owned st = true -> tuned st -> connected st ->
  let r := iteration denoise_vector raw fail st in
  tuned (state_of r) /\ connected (state_of r) /\
  exists evs,
    trace (state_of r) = trace st ++ evs /\
    one_at_a_time (unreaped st) evs /\
    unreaped_after evs (unreaped st) = unreaped (state_of r).
Proof.
  intros Hl Hw Ht [c [Hc Hn]] r.
  destruct (drain_loop_procs (length (freq_queue st)) st Hw Ht (le_n _))
    as [st1 [evs1 [Hr1 [Ht1 [Hw1 [Htu1 [Ho1 Hu1]]]]]]].
  assert (Hd : check_frequency_change st = Ok tt st1).
  { unfold check_frequency_change, try_except, bind, gets. now rewrite Hr1. }
  destruct (in_loop_handles st Hl) as [p0 [c0 [Hp0 [Hc0 _]]]].
  destruct (check_frequency_change_spec st p0 Hp0)
    as [st1' [evs' [Hd' [_ [_ [_ [_ [_ [_ [[Hcs [_ [Hss _]]] _]]]]]]]]]].
  assert (st1' = st1) by congruence. subst st1'.
  destruct Htu1 as [p1 [Hp1 Hn1]].
  assert (Hc1 : conn st1 = Some c) by congruence.
  assert (Hn1' : nth_error (socks st1) c = Some Connected) by congruence.
  subst r. unfold iteration, bind. rewrite Hd.
  destruct (read_denoise_send_frame st1 p1 c raw fail Hp1 Hc1 Hn1')
    as [evs2 [Ht2 [Hq2 [Hps2 [Hpr2 [Hcf2 Hcon2]]]]]].
  set (r := read_denoise_send denoise_vector raw fail st1) in *.
  assert (Hun : unreaped (state_of r) = unreaped st1)
    by (unfold unreaped; now rewrite Hps2).
  split; [|split; [exact Hcon2|]].
  - exists p1. split; [congruence|]. rewrite Hps2, Hcf2. exact Hn1.
  - exists (evs1 ++ evs2). split; [rewrite Ht2, Ht1, <- app_assoc; reflexivity|].
    split.
    + apply one_at_a_time_app; [exact Ho1|].
      apply quiet_one_at_a_time; [exact Hq2|].
      rewrite Hu1.
      destruct (tuned_unreaped st1 Hw1 (ex_intro _ p1 (conj Hp1 Hn1)))
        as [p' [_ ->]]. simpl. lia.
    + rewrite unreaped_after_app, Hu1, (quiet_unreaped _ Hq2), Hun. reflexivity.
Qed.

Lemma run_invariants (ticks : list tick) :
  forall st,
    in_loop st = true -> well_owned st = true -> tuned st -> connected st ->
    let r := run denoise_vector ticks st in
    tuned (state_of r) /\ connected (state_of r) /\
    exists evs,
      trace (state_of r) = trace st ++ evs /\
      one_at_a_time (unreaped st) evs /\
      unreaped_after evs (unreaped st) = unreaped (state_of r).
Proof.
  induction ticks as [|t rest IH]; intros st Hl Hw Ht Hc r.
  - subst r. cbn. split; [exact Ht|]. split; [exact Hc|].
    exists []. rewrite app_nil_r. repeat split.
    intros k. rewrite firstn_nil. simpl.
    destruct (tuned_unreaped st Hw Ht) as [p [_ ->]]. simpl. lia.
  - set (st0 := set_freq_queue (freq_queue st ++ arrivals t) st).
    assert (Hrun : r = match iteration denoise_vector (raw_read t)
                               (send_failure_of t) st0 with
                       | Ok _ st1 => run denoise_vector rest st1
                       | Raise e st1 => Raise e st1
                       end) by reflexivity.
    rewrite Hrun. clear Hrun r.
    assert (Hl0 : in_loop st0 = true) by exact Hl.
    assert (Hw0 : well_owned st0 = true) by exact Hw.
    assert (Ht0 : tuned st0) by exact Ht.
    assert (Hc0 : connected st0) by exact Hc.
    destruct (iteration_outcome_spec denoise_vector st0 (raw_read t)
                (send_failure_of t) Hl0) as [Hl1 [_ [Hw1 _]]].
    destruct (iteration_invariants st0 (raw_read t) (send_failure_of t)
                Hl0 Hw0 Ht0 Hc0) as [Ht1 [Hc1 [evs1 [Htr1 [Ho1 Hu1]]]]].
    specialize (Hw1 Hw0).
    destruct (iteration denoise_vector (raw_read t) (send_failure_of t) st0)
      as [[] st1|e st1]; cbn [state_of] in *.
    + destruct (IH st1 Hl1 Hw1 Ht1 Hc1) as [Ht2 [Hc2 [evs2 [Htr2 [Ho2 Hu2]]]]].
      split; [exact Ht2|]. split; [exact Hc2|].
      exists (evs1 ++ evs2).
      split; [rewrite Htr2, Htr1, <- app_assoc; reflexivity|].
      change (unreaped st) with (unreaped st0). split.
      * apply one_at_a_time_app; [exact Ho1 | now rewrite Hu1].
      * now rewrite unreaped_after_app, Hu1.
    + split; [exact Ht1|]. split; [exact Hc1|].
      exists evs1. split; [exact Htr1|]. split; [exact Ho1 | exact Hu1].
Qed.


(** X5. At no point of any run (start-up included) are two capture
    processes unreaped: replaying any prefix of the events of the run leaves
    at most one process started and not waited for. *)
Theorem never_two_capture_processes (ticks : list tick) (k : nat) :
  (length (unreaped_after
             (firstn k (trace (state_of (iq_processing_loop denoise_vector
                                           ticks initial_state))))
             []) <= 1)%nat.
Proof.
  assert (Hst : state_of (iq_processing_loop denoise_vector ticks initial_state)
                = state_of (run denoise_vector ticks st_running))
    by reflexivity.
  rewrite Hst.
  assert (Ht0 : tuned st_running) by (exists 0%nat; split; reflexivity).
  assert (Hc0 : connected st_running) by (exists 1%nat; split; reflexivity).
  destruct (run_invariants ticks st_running eq_refl eq_refl Ht0 Hc0)
    as [_ [_ [evs [Htr [Ho _]]]]].
  rewrite Htr. revert k. change (one_at_a_time [] (trace st_running ++ evs)).
  apply one_at_a_time_app.
  - intros k. do 6 (destruct k as [|k]; [simpl; lia|]). simpl.
    rewrite firstn_nil. simpl. lia.
  - exact Ho.
Qed.

(** X6. After any number of rounds, whatever the send failures, exactly
    one socket is open: the connection held in [conn].  Every earlier
    connection and every listening socket is closed. *)
Theorem loop_holds_one_connection (ticks : list tick) :
  let st := state_of (iq_processing_loop denoise_vector ticks initial_state) in
  exists c,
    conn st = Some c /\
    nth_error (socks st) c = Some Connected /\
    forall i s, nth_error (socks st) i = Some s -> i <> c -> s = Closed.
Proof.
  intros st.
  assert (Hst : st = state_of (run denoise_vector ticks st_running))
    by reflexivity.
  assert (Ht0 : tuned st_running) by (exists 0%nat; split; reflexivity).
  assert (Hc0 : connected st_running) by (exists 1%nat; split; reflexivity).
  destruct (run_invariants ticks st_running eq_refl eq_refl Ht0 Hc0)
    as [_ [Hc _]].
  destruct (run_sent denoise_vector ticks st_running eq_refl) as [Hl [Hw _]].
  specialize (Hw eq_refl). rewrite <- Hst in Hc, Hw, Hl.
  destruct Hc as [c [Hc Hn]]. exists c. split; [exact Hc|]. split; [exact Hn|].
  intros i s Hi Hne.
  apply well_owned_parts in Hw. destruct Hw as [_ [H2 _]].
  specialize (H2 i s Hi).
  destruct (in_loop_handles st Hl) as [_ [_ [_ [_ Ha]]]].
  rewrite Hc, Ha in H2. simpl in H2. apply Nat.eqb_neq in Hne.
  rewrite Hne in H2. simpl in H2. now destruct s.
Qed.
End RunInvariants.

(** ** What is sent *)

Lemma reference_denoiser_length (v : vec) :
  length (reference_denoiser v) = length v.
Proof.
  unfold reference_denoiser, denoise_vector, denoise_result, minimize.
  rewrite driver_length. apply zeros_like_length.
Qed.

(** X7. A chunk of 2*N bytes is sent as exactly N complex samples, for
    every denoiser that returns vectors of the length it is given. *)
Theorem payload_one_sample_per_pair (denoise_vector : vec -> vec)
    (raw : list byte) (N : nat) :
  (forall v, length (denoise_vector v) = length v) ->
  length raw = (2 * N)%nat ->
  length (payload_of denoise_vector raw) = N.
Proof.
  intros Hd Hlen. unfold payload_of, frame_iq, assemble.
  rewrite map2_length, !Hd.
  assert (Hmap : length (map center_scale (frombuffer_float32 raw))
                 = (2 * N)%nat).
  { unfold frombuffer_float32. now rewrite !length_map. }
  rewrite (proj1 (stride2_length N _) Hmap).
  assert (Hq : length (stride2_from1 (map center_scale (frombuffer_float32 raw)))
               = N).
  { unfold stride2_from1. destruct N as [|N].
    - destruct (map center_scale (frombuffer_float32 raw));
        [reflexivity | discriminate].
    - apply (stride2_length N).
      destruct (map center_scale (frombuffer_float32 raw)); simpl in *; lia. }
  rewrite Hq. apply Nat.min_id.
Qed.

Lemma payload_one_sample_per_pair_witness :
  length small_chunk = (2 * 2)%nat /\
  length (payload_of reference_denoiser small_chunk) = 2%nat.
Proof.
  split; [reflexivity|].
  exact (payload_one_sample_per_pair reference_denoiser small_chunk 2
           reference_denoiser_length eq_refl).
Defined.

Section WholeRun.
Variable denoise_vector : vec -> vec.

(** X8. Delivery is at most once and in order over the whole run: the
    payloads handed to [sendall] since the script started are those of the
    full chunks read, one send per chunk, in reading order; short reads
    contribute nothing, and the list stops at the first chunk whose send
    raised an error that is not handled. *)
Theorem loop_sends_each_full_chunk_once (ticks : list tick) :
  exists k,
    (k <= length ticks)%nat /\
    sent (trace (state_of (iq_processing_loop denoise_vector ticks
                             initial_state)))
    = map (payload_of denoise_vector)
          (filter full_read (map raw_read (firstn k ticks))) /\
    (forall st',
       iq_processing_loop denoise_vector ticks initial_state = Ok tt st' ->
       k = length ticks).
Proof.
  assert (Hrun : iq_processing_loop denoise_vector ticks initial_state
                 = run denoise_vector ticks st_running) by reflexivity.
  rewrite Hrun.
  destruct (run_sent denoise_vector ticks st_running eq_refl)
    as [_ [_ [k [evs [Hk [Ht [Hs Hok]]]]]]].
  exists k. split; [exact Hk|]. split; [|exact Hok].
  rewrite Ht, sent_app, Hs. reflexivity.
Qed.

(** X9. Only a broken pipe and a connection reset are handled.  A send that
    fails with any other error leaves the loop with that error: the chunks
    that would follow are never read, and the round closes no socket and
    touches no process after the drain. *)
Theorem other_send_error_leaves_loop (st : State) (t : tick) (e : exn) :
  in_loop st = true ->
  (CHUNK_SIZE * 2 <= length (raw_read t))%nat ->
  send_failure_of t = Some e ->
  is_disconnect e = false ->
  exists st1 st' p c,
    check_frequency_change
      (set_freq_queue (freq_queue st ++ arrivals t) st) = Ok tt st1 /\
    (forall rest, run denoise_vector (t :: rest) st = Raise e st') /\
    emitted st1 st'
      = [Read p (length (raw_read t));
         SendAll c (payload_of denoise_vector (raw_read t)) (Some e)] /\
    socks st' = socks st /\ conn st' = conn st /\
    procs st' = procs st1 /\ proc st' = proc st1.
Proof.
  intros Hl Hs Hf He.
  set (st0 := set_freq_queue (freq_queue st ++ arrivals t) st).
  assert (Hl0 : in_loop st0 = true) by exact Hl.
  destruct (in_loop_handles st0 Hl0) as [p0 [c [Hp0 [Hc0 _]]]].
  destruct (check_frequency_change_spec st0 p0 Hp0)
    as [st1 [evs [Hd [_ [_ [_ [_ [_ [[p Hp] [[Hcs [_ [Hss _]]] _]]]]]]]]]].
  assert (Hc : conn st1 = Some c) by congruence.
  pose proof (read_full_uncaught denoise_vector st1 p c (raw_read t) e
                Hp Hc Hs He) as Hr.
  exists st1,
    (log (SendAll c (payload_of denoise_vector (raw_read t)) (Some e))
       (log (Read p (length (raw_read t))) st1)), p, c.
  split; [exact Hd|]. split; [|split; [|repeat split]].
  - intros rest.
    assert (Hrun : run denoise_vector (t :: rest) st
                   = match iteration denoise_vector (raw_read t)
                             (send_failure_of t) st0 with
                     | Ok _ s1 => run denoise_vector rest s1
                     | Raise e1 s1 => Raise e1 s1
                     end) by reflexivity.
    rewrite Hrun. unfold iteration, bind. rewrite Hd, Hf, Hr. reflexivity.
  - apply emitted_app. cbn. rewrite <- app_assoc. reflexivity.
  - cbn. exact Hss.
  - cbn. exact Hcs.
Qed.

(** X10. A frequency change takes effect before the next chunk is read:
    the read of a round is made on the process that is running once the
    queue has been drained, and that process is tuned to the last value that
    was queued (to the current frequency when nothing was). *)
Theorem retune_precedes_read (st : State) (raw : list byte) (fail : option exn) :
  in_loop st = true -> well_owned st = true -> tuned st ->
  exists st1 p evs,
    check_frequency_change st = Ok tt st1 /\
    nth_error (procs st1) p
      = Some {| p_freq := last (freq_queue st) (current_freq st);
                p_status := Running |} /\
    trace (state_of (iteration denoise_vector raw fail st))
      = trace st1 ++ Read p (length raw) :: evs.
Proof.
  intros Hl Hw Ht.
  destruct (drain_loop_procs (length (freq_queue st)) st Hw Ht (le_n _))
    as [st1 [evs1 [Hr1 [_ [_ [[p [Hp Hn]] _]]]]]].
  assert (Hd : check_frequency_change st = Ok tt st1).
  { unfold check_frequency_change, try_except, bind, gets. now rewrite Hr1. }
  destruct (in_loop_handles st Hl) as [p0 [c [Hp0 [Hc0 _]]]].
  destruct (check_frequency_change_spec st p0 Hp0)
    as [st1' [evs' [Hd' [_ [_ [_ [Hcf [_ [_ [[Hcs _] _]]]]]]]]]].
  assert (st1' = st1) by congruence. subst st1'.
  assert (Hc : conn st1 = Some c) by congruence.
  exists st1, p. rewrite <- Hcf.
  unfold iteration, bind. rewrite Hd.
  destruct (Nat.ltb_spec (length raw) (CHUNK_SIZE * 2)) as [Hs|Hs].
  - rewrite (read_short denoise_vector st1 p raw fail Hp Hs).
    exists []. split; [reflexivity|]. split; [exact Hn | reflexivity].
  - destruct fail as [e|].
    + destruct (is_disconnect e) eqn:He.
      * destruct (read_full_disconnected denoise_vector st1 p c raw e Hp Hc Hs He)
          as [st' [Hr [Htr _]]].
        rewrite Hr. eexists. split; [reflexivity|]. split; [exact Hn | exact Htr].
      * rewrite (read_full_uncaught denoise_vector st1 p c raw e Hp Hc Hs He).
        eexists. split; [reflexivity|]. split; [exact Hn|].
        cbn. rewrite <- app_assoc. reflexivity.
    + rewrite (read_full_sent denoise_vector st1 p c raw Hp Hc Hs).
      eexists. split; [reflexivity|]. split; [exact Hn|].
      cbn. rewrite <- app_assoc. reflexivity.
Qed.

(** The loop itself never sets the terminate flag. *)
Lemma iteration_keeps_flag (st : State) (raw : list byte) (fail : option exn) :
  in_loop st = true ->
  terminate_flag (state_of (iteration denoise_vector raw fail st))
  = terminate_flag st.
Proof.
  intros Hl.
  destruct (in_loop_handles st Hl) as [p0 [c [Hp0 [Hc0 _]]]].
  destruct (check_frequency_change_spec st p0 Hp0)
    as [st1 [evs [Hd [_ [_ [_ [_ [_ [[p Hp] [[Hcs [_ [_ Hf]]] _]]]]]]]]]].
  assert (Hc : conn st1 = Some c) by congruence.
  unfold iteration, bind. rewrite Hd, <- Hf.
  destruct (Nat.ltb_spec (length raw) (CHUNK_SIZE * 2)) as [Hs|Hs].
  - now rewrite (read_short denoise_vector st1 p raw fail Hp Hs).
  - destruct fail as [e|].
    + destruct (is_disconnect e) eqn:He.
      * destruct (read_full_disconnected denoise_vector st1 p c raw e Hp Hc Hs He)
          as [st' [Hr [_ [_ [_ [_ [_ [_ [_ [_ Hfl]]]]]]]]]].
        now rewrite Hr.
      * now rewrite (read_full_uncaught denoise_vector st1 p c raw e Hp Hc Hs He).
    + now rewrite (read_full_sent denoise_vector st1 p c raw Hp Hc Hs).
Qed.

(** X11. The test of the outer [while] never ends the loop: no round sets
    the terminate flag, so with the flag clear at the start the guarded loop
    runs exactly the rounds of the unguarded one and leaves the flag clear.
    The loop is only ever left by an exception. *)
Theorem loop_guard_never_fires (ticks : list tick) :
  forall st,
    in_loop st = true ->
    terminate_flag st = false ->
    run_while denoise_vector ticks st = run denoise_vector ticks st /\
    terminate_flag (state_of (run denoise_vector ticks st)) = false.
Proof.
  induction ticks as [|t rest IH]; intros st Hl Hf; [now split|].
  set (st0 := set_freq_queue (freq_queue st ++ arrivals t) st).
  assert (Hl0 : in_loop st0 = true) by exact Hl.
  assert (Hw : run_while denoise_vector (t :: rest) st
               = match iteration denoise_vector (raw_read t)
                         (send_failure_of t) st0 with
                 | Ok _ s1 => run_while denoise_vector rest s1
                 | Raise e1 s1 => Raise e1 s1
                 end).
  { cbn [run_while]. unfold bind at 1, gets at 1. rewrite Hf. reflexivity. }
  assert (Hr : run denoise_vector (t :: rest) st
               = match iteration denoise_vector (raw_read t)
                         (send_failure_of t) st0 with
                 | Ok _ s1 => run denoise_vector rest s1
                 | Raise e1 s1 => Raise e1 s1
                 end) by reflexivity.
  rewrite Hw, Hr.
  pose proof (iteration_keeps_flag st0 (raw_read t) (send_failure_of t) Hl0)
    as Hk.
  destruct (iteration_outcome_spec denoise_vector st0 (raw_read t)
              (send_failure_of t) Hl0) as [Hl1 _].
  destruct (iteration denoise_vector (raw_read t) (send_failure_of t) st0)
    as [[] s1|e1 s1]; cbn [state_of] in *.
  - apply IH; [exact Hl1 | now rewrite Hk].
  - split; [reflexivity | now rewrite Hk].
Qed.

End WholeRun.

Lemma other_send_error_leaves_loop_witness :
  in_loop st_running = true /\
  exists st1 st' p c,
    check_frequency_change
      (set_freq_queue (freq_queue st_running ++ []) st_running) = Ok tt st1 /\
    (forall rest,
       run reference_denoiser
           ({| arrivals := []; raw_read := full_chunk;
               send_failure_of := Some OtherOSError |} :: rest) st_running
       = Raise OtherOSError st') /\
    emitted st1 st'
      = [Read p (length full_chunk);
         SendAll c (payload_of reference_denoiser full_chunk) (Some OtherOSError)] /\
    socks st' = socks st_running /\ conn st' = conn st_running /\
    procs st' = procs st1 /\ proc st' = proc st1.
Proof.
  split; [reflexivity|].
  exact (other_send_error_leaves_loop reference_denoiser st_running
           {| arrivals := []; raw_read := full_chunk;
              send_failure_of := Some OtherOSError |}
           OtherOSError eq_refl full_chunk_length eq_refl eq_refl).
Defined.

Lemma retune_precedes_read_witness :
  in_loop st_three_pending = true /\
  well_owned st_three_pending = true /\
  tuned st_three_pending /\
  exists st1 p evs,
    check_frequency_change st_three_pending = Ok tt st1 /\
    nth_error (procs st1) p
      = Some {| p_freq := last (freq_queue st_three_pending)
                               (current_freq st_three_pending);
                p_status := Running |} /\
    trace (state_of (iteration reference_denoiser [] None st_three_pending))
      = trace st1 ++ Read p (length (@nil byte)) :: evs.
Proof.
  assert (Ht : tuned st_three_pending) by (exists 0%nat; split; reflexivity).
  split; [reflexivity|]. split; [reflexivity|]. split; [exact Ht|].
  exact (retune_precedes_read reference_denoiser st_three_pending [] None
           eq_refl eq_refl Ht).
Defined.

Lemma loop_guard_never_fires_witness :
  in_loop st_running = true /\
  terminate_flag st_running = false /\
  run_while reference_denoiser
    [{| arrivals := [103000000]; raw_read := []; send_failure_of := None |}]
    st_running
  = run reference_denoiser
      [{| arrivals := [103000000]; raw_read := []; send_failure_of := None |}]
      st_running.
Proof.
  split; [reflexivity|]. split; [reflexivity|].
  apply (loop_guard_never_fires reference_denoiser
           [{| arrivals := [103000000]; raw_read := [];
               send_failure_of := None |}] st_running); reflexivity.
Defined.

(** ** Framing loses nothing *)

Lemma denormalize_normalize (b : byte) : denormalize (normalize_byte b) = byte_val b.
Proof. destruct b; vm_compute; reflexivity. Qed.

Lemma interleave_stride2 {A : Type} (n : nat) :
  forall l : list A,
    length l = (2 * n)%nat ->
    interleave (stride2 l) (stride2_from1 l) = l.
Proof.
  induction n as [|n IH]; intros [|x [|y t]] H; try reflexivity;
    try discriminate H.
  - simpl in H. lia.
  - assert (Ht : length t = (2 * n)%nat) by (simpl in H; lia).
    assert (Hy : stride2 (y :: t) = y :: stride2 (tl t))
      by (destruct t; reflexivity).
    unfold stride2_from1. cbn [tl]. rewrite Hy.
    cbn [stride2 interleave]. f_equal. f_equal. exact (IH t Ht).
Qed.

(** X12. Framing is lossless and keeps the pairs aligned: from the I and Q
    channels of a chunk of even length the byte values of the chunk are
    recovered, in order. *)
Theorem frame_iq_lossless (raw : list byte) (N : nat) :
  length raw = (2 * N)%nat ->
  unframe (frame_iq raw) = map byte_val raw.
Proof.
  intros H. unfold unframe, frame_iq. cbn [fst snd].
  rewrite (interleave_stride2 N).
  - unfold frombuffer_float32. rewrite !map_map.
    apply map_ext. intros b. apply denormalize_normalize.
  - unfold frombuffer_float32. now rewrite !length_map.
Qed.

Lemma frame_iq_lossless_witness :
  length small_chunk = (2 * 2)%nat /\
  unframe (frame_iq small_chunk) = [127; 128; 0; 255].
Proof.
  split; [reflexivity|].
  exact (frame_iq_lossless small_chunk 2 eq_refl).
Defined.

(** ** Complex assembly *)

(** X13. In [i_d + 1j * q_d] the product with [1j] multiplies the Q value
    by zero in the real part.  For a Q value that is a number this leaves a
    non-zero I value as it is (rounded to binary32); for an infinite or NaN
    Q value it turns the real part of that sample into NaN, whatever the I
    value. *)
Theorem assemble_real_part (i q : spec_float) :
  (is_number q = false -> fst (assemble_1 i q) = S754_nan) /\
  (is_number q = true ->
   forall s m e, i = S754_finite s m e ->
                 fst (assemble_1 i q) = as_float32 i).
Proof.
  split.
  - destruct q as [s|s| |s m e]; try discriminate; intros _;
      destruct i as [si|si| |si mi ei]; try destruct si; try destruct s;
      reflexivity.
  - intros Hq s m e ->.
    destruct q as [sq|sq| |sq mq eq]; try discriminate Hq;
      destruct sq; reflexivity.
Qed.

Lemma assemble_real_part_witness :
  is_number (S754_infinity false) = false /\
  fst (assemble_1 (F64.of_Z 1) (S754_infinity false)) = S754_nan /\
  is_number (F64.of_Z 2) = true /\
  fst (assemble_1 (F64.of_Z 1) (F64.of_Z 2)) = as_float32 (F64.of_Z 1).
Proof.
  pose proof (assemble_real_part (F64.of_Z 1) (S754_infinity false)) as [H1 _].
  pose proof (assemble_real_part (F64.of_Z 1) (F64.of_Z 2)) as [_ H2].
  split; [reflexivity|]. split; [apply H1; reflexivity|].
  split; [reflexivity|].
  apply (H2 eq_refl false 4503599627370496%positive (-52)). reflexivity.
Defined.

(** ** From the operator's line to the retuned receiver *)

(** X14. A valid entry that differs from the frequency in use retunes the
    receiver at the next drain: the line queues its value in Hz, and the
    drain that follows restarts the capture process once, at that value,
    which becomes the current frequency. *)
Theorem input_then_drain_retunes
    (py_float : string -> option spec_float) (line : string) (st : State)
    (f : spec_float) (hz : Z) (p : nat) :
  all_space line = false ->
  py_float (strip line) = Some f ->
  py_int (F64.mul f c1e6) = inr hz ->
  proc st = Some p ->
  freq_queue st = [] ->
  hz <> current_freq st ->
  exists st1 st2,
    frequency_input_body py_float line st = Ok tt st1 /\
    freq_queue st1 = [hz] /\
    check_frequency_change st1 = Ok tt st2 /\
    spawned (emitted st1 st2) = [hz] /\
    current_freq st2 = hz /\
    freq_queue st2 = [].
Proof.
  intros Hsp Hf Hi Hp Hq Hne.
  set (st1 := set_freq_queue (freq_queue st ++ [hz]) st).
  assert (Hb : frequency_input_body py_float line st = Ok tt st1).
  { unfold frequency_input_body, try_except, parse_and_put.
    rewrite strip_empty, Hsp, Hf, Hi. reflexivity. }
  assert (Hq1 : freq_queue st1 = [hz]) by (cbn; now rewrite Hq).
  destruct (check_frequency_change_spec st1 p Hp)
    as [st2 [evs [Hd [Ht [Hs [_ [Hc [Hq2 _]]]]]]]].
  exists st1, st2. split; [exact Hb|]. split; [exact Hq1|].
  split; [exact Hd|].
  rewrite (emitted_app st1 st2 evs Ht), Hs, Hc, Hq1.
  change (current_freq st1) with (current_freq st).
  cbn [changes last].
  destruct (Z.eqb_spec hz (current_freq st)) as [E|_]; [contradiction|].
  repeat split. exact Hq2.
Qed.

Lemma input_then_drain_retunes_witness :
  all_space "103.0"%string = false /\
  float_of_decimal (strip "103.0"%string)
    = Some (S754_finite false 7247980650299392 (-46)) /\
  103000000 <> current_freq st_running /\
  exists st1 st2,
    frequency_input_body float_of_decimal "103.0"%string st_running = Ok tt st1 /\
    freq_queue st1 = [103000000] /\
    check_frequency_change st1 = Ok tt st2 /\
    spawned (emitted st1 st2) = [103000000] /\
    current_freq st2 = 103000000 /\
    freq_queue st2 = [].
Proof.
  assert (H : 103000000 <> current_freq st_running) by (vm_compute; discriminate).
  split; [reflexivity|]. split; [reflexivity|]. split; [exact H|].
  exact (input_then_drain_retunes float_of_decimal "103.0"%string st_running
           (S754_finite false 7247980650299392 (-46)) 103000000 0
           eq_refl eq_refl eq_refl eq_refl eq_refl H).
Defined.

(** ** Symmetry of the objective *)

Lemma binary_round_aux_sign (prec emax : Z) (s : bool) (m e : Z) (l : location) :
  binary_round_aux prec emax (negb s) m e l
  = SFopp (binary_round_aux prec emax s m e l).
Proof.
  unfold binary_round_aux.
  destruct (shr_fexp prec emax m e l) as [mrs' e'].
  destruct (shr_fexp prec emax _ e' loc_Exact) as [mrs'' e''].
  destruct (shr_m mrs''); try reflexivity.
  destruct (e'' <=? emax - prec); reflexivity.
Qed.

Lemma binary_normalize_opp (prec emax : Z) (p : positive) (e : Z) (sz : bool) :
  binary_normalize prec emax (Zneg p) e sz
  = SFopp (binary_normalize prec emax (Zpos p) e sz).
Proof.
  unfold binary_normalize, binary_round.
  destruct (shl_align p e _) as [mz ez].
  apply (binary_round_aux_sign prec emax false).
Qed.

(** Two floats that differ at most by their sign. *)
Lemma SFmul_self_opp (prec emax : Z) (d : spec_float) :
  SFmul prec emax (SFopp d) (SFopp d) = SFmul prec emax d d.
Proof. destruct d as [s|s| |s m e]; try destruct s; reflexivity. Qed.

Lemma as_float64_opp (t : spec_float) : as_float64 (SFopp t) = SFopp (as_float64 t).
Proof.
  destruct t as [s|s| |s m e]; try reflexivity.
  unfold as_float64, SFopp at 1.
  destruct s; cbn [negb cond_Zopp Z.opp].
  - change (S754_finite false m e)
      with (SFopp (S754_finite true m e)).
    unfold binary_normalize, binary_round.
    destruct (shl_align m e _) as [mz ez].
    rewrite (binary_round_aux_sign F64.prec F64.emax false).
    destruct (binary_round_aux F64.prec F64.emax false (Z.pos mz) ez loc_Exact)
      as [s'|s'| |s' m' e']; try destruct s'; reflexivity.
  - unfold binary_normalize, binary_round.
    destruct (shl_align m e _) as [mz ez].
    apply (binary_round_aux_sign F64.prec F64.emax false).
Qed.

Lemma SFsub_opp (x y : spec_float) :
  F64.sub (SFopp x) (SFopp y) = F64.sub x y \/
  F64.sub (SFopp x) (SFopp y) = SFopp (F64.sub x y).
Proof.
  destruct x as [sx|sx| |sx mx ex], y as [sy|sy| |sy my ey];
    try destruct sx; try destruct sy;
    try (left; reflexivity); try (right; reflexivity).
  all: unfold F64.sub, SFsub, SFopp;
    cbn [negb cond_Zopp];
    set (ez := Z.min ex ey);
    set (a := fst (shl_align mx ex ez));
    set (b := fst (shl_align my ey ez)).
  - (* -x - -y  versus  x - y, both negative inputs *)
    replace (Z.pos a - Z.pos b) with (- (- Z.pos a - - Z.pos b)) by lia.
    destruct (- Z.pos a - - Z.pos b) as [|d|d] eqn:E;
      [left; reflexivity | right | right].
    + change (- Z.pos d) with (Z.neg d). apply binary_normalize_opp.
    + change (- Z.neg d) with (Z.pos d).
      rewrite binary_normalize_opp.
      destruct (binary_normalize F64.prec F64.emax (Z.pos d) ez false)
        as [s'|s'| |s' m' e']; try destruct s'; reflexivity.
  - replace (Z.pos a - - Z.pos b) with (- (- Z.pos a - Z.pos b)) by lia.
    destruct (- Z.pos a - Z.pos b) as [|d|d] eqn:E;
      [left; reflexivity | right | right].
    + change (- Z.pos d) with (Z.neg d). apply binary_normalize_opp.
    + change (- Z.neg d) with (Z.pos d).
      rewrite binary_normalize_opp.
      destruct (binary_normalize F64.prec F64.emax (Z.pos d) ez false)
        as [s'|s'| |s' m' e']; try destruct s'; reflexivity.
  - replace (- Z.pos a - Z.pos b) with (- (Z.pos a - - Z.pos b)) by lia.
    destruct (Z.pos a - - Z.pos b) as [|d|d] eqn:E;
      [left; reflexivity | right | right].
    + change (- Z.pos d) with (Z.neg d). apply binary_normalize_opp.
    + change (- Z.neg d) with (Z.pos d).
      rewrite binary_normalize_opp.
      destruct (binary_normalize F64.prec F64.emax (Z.pos d) ez false)
        as [s'|s'| |s' m' e']; try destruct s'; reflexivity.
  - replace (- Z.pos a - - Z.pos b) with (- (Z.pos a - Z.pos b)) by lia.
    destruct (Z.pos a - Z.pos b) as [|d|d] eqn:E;
      [left; reflexivity | right | right].
    + change (- Z.pos d) with (Z.neg d). apply binary_normalize_opp.
    + change (- Z.neg d) with (Z.pos d).
      rewrite binary_normalize_opp.
      destruct (binary_normalize F64.prec F64.emax (Z.pos d) ez false)
        as [s'|s'| |s' m' e']; try destruct s'; reflexivity.
Qed.

Lemma sq_residual_opp (x t : spec_float) :
  sq_residual (SFopp x) (SFopp t) = sq_residual x t.
Proof.
  unfold sq_residual. rewrite as_float64_opp.
  destruct (SFsub_opp x (as_float64 t)) as [-> | ->]; [reflexivity|].
  apply SFmul_self_opp.
Qed.

Lemma smooth_l1_1_opp (x : spec_float) : smooth_l1_1 (SFopp x) = smooth_l1_1 x.
Proof.
  unfold smooth_l1_1, F64.mul. now rewrite SFmul_self_opp.
Qed.

(** X15. The objective is symmetric, bit for bit: negating the noisy vector
    and the candidate together leaves the cost unchanged, so the denoiser
    treats positive and negative excursions alike. *)
Theorem cost_symmetric (target x : vec) :
  cost_function_factory (map SFopp target) (map SFopp x)
  = cost_function_factory target x.
Proof.
  unfold cost_function_factory, smooth_l1.
  assert (H1 : map2 sq_residual (map SFopp x) (map SFopp target)
               = map2 sq_residual x target).
  { revert target. induction x as [|a t IH]; intros [|b u]; try reflexivity.
    cbn [map map2]. now rewrite sq_residual_opp, IH. }
  assert (H2 : map smooth_l1_1 (map SFopp x) = map smooth_l1_1 x).
  { rewrite map_map. apply map_ext. intros a. apply smooth_l1_1_opp. }
  now rewrite H1, H2.
Qed.

(** ** Shutdown between rounds *)

Lemma handler_leaves_nothing (st : State) :
  well_owned st = true ->
  accepting st = None ->
  shutdown_leaves_nothing st.
Proof.
  intros Hw Ha. apply well_owned_parts in Hw. destruct Hw as [H1 [H2 _]].
  destruct (shutdown_handler_spec st) as [st' [Hr [_ [_ [Hps [Hss _]]]]]].
  unfold shutdown_leaves_nothing, no_running_process, no_open_socket.
  rewrite Hr. cbn [state_of]. rewrite Hps, Hss. split.
  - apply Forall_forall. intros x Hx. apply In_nth_error in Hx.
    destruct Hx as [k Hk]. unfold is_running.
    destruct (proc st) as [p|] eqn:Ep.
    + rewrite nth_error_update in Hk.
      destruct (Nat.eqb_spec k p) as [E|E].
      * destruct (nth_error (procs st) k) as [y|]; [|discriminate].
        injection Hk as <-. unfold kill_status. simpl.
        destruct (p_status y); reflexivity.
      * specialize (H1 k x Hk). simpl in H1. apply Nat.eqb_neq in E.
        rewrite E in H1. simpl in H1. unfold is_reaped in H1.
        destruct (p_status x); congruence.
    + specialize (H1 k x Hk). simpl in H1. unfold is_reaped in H1.
      destruct (p_status x); congruence.
  - apply Forall_forall. intros s Hs. apply In_nth_error in Hs.
    destruct Hs as [k Hk]. rewrite Ha in H2.
    destruct (conn st) as [c|] eqn:Ec.
    + rewrite nth_error_update in Hk.
      destruct (Nat.eqb_spec k c) as [E|E].
      * destruct (nth_error (socks st) k); [|discriminate].
        injection Hk as <-. reflexivity.
      * specialize (H2 k s Hk). simpl in H2. apply Nat.eqb_neq in E.
        now rewrite E in H2.
    + specialize (H2 k s Hk). exact H2.
Qed.

(** X16. An interrupt that arrives between two rounds of the loop is
    cleaned up completely: after the handler no capture process is running
    and no socket is open, whatever the rounds before it read, sent or
    retuned. *)
Theorem shutdown_between_rounds_leaves_nothing
    (denoise_vector : vec -> vec) (ticks : list tick) :
  shutdown_leaves_nothing
    (state_of (iq_processing_loop denoise_vector ticks initial_state)).
Proof.
  assert (Hst : state_of (iq_processing_loop denoise_vector ticks initial_state)
                = state_of (run denoise_vector ticks st_running))
    by reflexivity.
  rewrite Hst.
  destruct (run_sent denoise_vector ticks st_running eq_refl) as [Hl [Hw _]].
  apply handler_leaves_nothing; [exact (Hw eq_refl)|].
  destruct (in_loop_handles _ Hl) as [_ [_ [_ [_ Ha]]]]. exact Ha.
Qed.
